(** * InfoFlow4Venture: a shallow embedding of the ingestion pipeline,
      the e-mail digest service and the task scheduler.

    Every definition below follows one function of the Python sources
    ([ListPageExtractor.py], [DetailPageExtractor.py], [EmailService.py],
    [scheduler.py]).  External collaborators (the crawler and its LLM
    back end, the SMTP server, the translation API, the clock) are
    oracles stored in the world records; each call consumes one answer
    and leaves a trace (a log of calls, of sleeps, of delivered mail), so
    that statements about "what was attempted" can be phrased on the
    final world. *)

From Stdlib Require Import ZArith String Ascii List Lia Permutation Sorted.
From stdpp Require Import gmap strings list fin_maps sorting.
Import ListNotations.

Local Open Scope string_scope.
Local Open Scope list_scope.
Local Open Scope Z_scope.

(** ** Python values shared by all modules *)

(** The exception classes the sources raise, catch or let through.
    [KeyboardInterrupt] stands for the classes that derive from
    [BaseException] only: an [except Exception] clause does not stop
    them. *)
Inductive exn : Type :=
| RateLimitError
| ProviderError (msg : string)
| NameError (name : string)
| ValueError (msg : string)
| TypeError (msg : string)
| JSONDecodeError
| ScheduleValueError (time_str : string)
| PlainException (msg : string)
| KeyboardInterrupt.

Definition is_Exception (e : exn) : bool :=
  match e with
  | KeyboardInterrupt => false
  | _ => true
  end.

Definition is_RateLimitError (e : exn) : bool :=
  match e with
  | RateLimitError => true
  | _ => false
  end.

(** A call either returns or raises. *)
Inductive result (A : Type) : Type :=
| Ret (a : A)
| Raise (e : exn).
Arguments Ret {A} a.
Arguments Raise {A} e.

Definition raised {A : Type} (r : result A) : Prop :=
  match r with
  | Ret _ => False
  | Raise _ => True
  end.

(** Truth value of a [str]: the empty string is false. *)
Definition str_truthy (s : string) : bool := negb (String.eqb s "").

(** Truth value of [d.get(k)] / [os.environ.get(k)] for a [str] entry:
    [None] and [''] are false. *)
Definition opt_str_truthy (o : option string) : bool :=
  match o with
  | Some s => str_truthy s
  | None => false
  end.

(** Truth value of a list: the empty list is false. *)
Definition list_truthy {A : Type} (l : list A) : bool :=
  match l with
  | [] => false
  | _ :: _ => true
  end.

(** Truth value of the result of a function returning [True], [False]
    or falling off its end ([None]). *)
Definition opt_bool_truthy (o : option bool) : bool :=
  match o with
  | Some b => b
  | None => false
  end.

(** [s.split(',')]: cut at every separator, keep empty pieces, trim
    nothing.  [split_acc sep cur s] carries the piece being read in
    reverse order of arrival ([cur] is extended at its end). *)
Fixpoint split_acc (sep : ascii) (cur : string) (s : string) : list string :=
  match s with
  | EmptyString => [cur]
  | String c rest =>
      if Ascii.eqb c sep then cur :: split_acc sep EmptyString rest
      else split_acc sep (cur +:+ String c EmptyString) rest
  end.

Definition py_split (sep : ascii) (s : string) : list string :=
  split_acc sep EmptyString s.

(** [sep.join(pieces)] for a one-character separator. *)
Fixpoint py_join (sep : ascii) (pieces : list string) : string :=
  match pieces with
  | [] => EmptyString
  | [p] => p
  | p :: ps => p +:+ String sep (py_join sep ps)
  end.

Fixpoint contains_char (c : ascii) (s : string) : bool :=
  match s with
  | EmptyString => false
  | String d rest => Ascii.eqb d c || contains_char c rest
  end.

(** ** The document store *)

(** One record of the [news] collection ([_format_news_document] gives
    the fields; [last_updated] is added by the detail backfill).  Dates
    are seconds on the time line. *)
Record Document : Type := mkDocument {
  doc_title : string;
  doc_url : string;
  published_date : Z;
  created_at : Z;
  doc_tags : list string;
  doc_language : string;
  doc_content : option string;
  doc_keywords : option (list string);
  last_updated : option Z
}.

(** The collection in its natural (insertion) order.  The unique index
    on [url] is the invariant [unique_urls]. *)
Definition unique_urls (coll : list Document) : Prop :=
  NoDup (map doc_url coll).

(** [collection.find_one({'url': u})] *)
Fixpoint find_one (u : string) (coll : list Document) : option Document :=
  match coll with
  | [] => None
  | d :: rest => if String.eqb (doc_url d) u then Some d else find_one u rest
  end.

(** [collection.update_one({'url': u}, {'$set': ...})]: the first
    document with that url is rewritten by [f]; without a match nothing
    happens. *)
Fixpoint update_one (u : string) (f : Document -> Document)
    (coll : list Document) : list Document :=
  match coll with
  | [] => []
  | d :: rest =>
      if String.eqb (doc_url d) u then f d :: rest
      else d :: update_one u f rest
  end.

(** [collection.update_one({'url': u}, {'$set': fields}, upsert=True)]:
    as [update_one]; without a match the document built from the filter
    and the fields is inserted. *)
Definition upsert_one (u : string) (f : Document -> Document)
    (fresh : Document) (coll : list Document) : list Document :=
  match find_one u coll with
  | Some _ => update_one u f coll
  | None => coll ++ [fresh]
  end.

(** ** EmailService.py *)

Module EmailService.

(** One entry of the digest, as [get_latest_news_from_mongodb] builds
    it from a stored document. *)
Record NewsItem : Type := mkNewsItem {
  item_title : string;
  item_summary : option string;
  item_key_words : option (list string);
  item_url : string
}.

(** The world of the digest builder.  [smtp n r] tells whether the
    [n]-th SMTP session ever opened (login and [send_message] to
    recipient [r]) goes through, that is, whether the whole [with]
    block, its exit included, raises nothing; a session that does not
    go through raises inside the block, at whatever point.  [outbox]
    is the mail of the sessions that went through: what the service
    can count as sent.  (A message handed over in a session that then
    raises on its exit is counted as failed by the code and is not in
    [outbox].)  [llm] is the answer of the translation API to a
    prompt. *)
Record World : Type := mkWorld {
  environ : gmap string string;
  collection : list Document;
  smtp : nat -> string -> bool;
  smtp_sessions : nat;
  outbox : list (string * string);
  slept : list Z;
  llm : string -> result string
}.

(** [time.sleep(seconds)] *)
Definition sleep (seconds : Z) (w : World) : World :=
  {| environ := environ w; collection := collection w; smtp := smtp w;
     smtp_sessions := smtp_sessions w; outbox := outbox w;
     slept := slept w ++ [seconds]; llm := llm w |}.

(** The [with smtplib.SMTP_SSL(...)] block of [send_single_email]:
    one session is consumed; when it goes through the message is
    entered in [outbox]. *)
Definition smtp_session (recipient html_content : string) (w : World)
    : bool * World :=
  let ok := smtp w (smtp_sessions w) recipient in
  (ok,
   {| environ := environ w; collection := collection w; smtp := smtp w;
      smtp_sessions := S (smtp_sessions w);
      outbox := if ok then outbox w ++ [(recipient, html_content)] else outbox w;
      slept := slept w; llm := llm w |}).

(** The body of [for attempt in range(retry_count)], over the values
    of [attempt] still to come.  Running out of values is falling off
    the end of the function: Python returns [None]. *)
Fixpoint send_attempts (recipient html_content : string)
    (retry_count retry_delay : Z) (range : list Z) (w : World)
    : option bool * World :=
  match range with
  | [] => (None, w)
  | attempt :: rest =>
      let '(ok, w1) := smtp_session recipient html_content w in
      if ok then (Some true, w1)
      else if attempt <? retry_count - 1
           then send_attempts recipient html_content retry_count retry_delay
                  rest (sleep retry_delay w1)
           else (Some false, w1)
  end.

(** [range(n)] *)
Definition py_range (n : Z) : list Z := seqZ 0 n.

Definition send_single_email (sender_email sender_password recipient
    html_content : string) (retry_count retry_delay : Z) (w : World)
    : option bool * World :=
  send_attempts recipient html_content retry_count retry_delay
    (py_range retry_count) w.

(** Defaults of the keyword arguments of [send_single_email]. *)
Definition default_retry_count : Z := 1.
Definition default_retry_delay : Z := 5.

(** The [if ...: success_count += 1 else: failed_recipients.append]
    of [send_email], on the value [send_single_email] returned. *)
Definition tally (sent : option bool) (recipient : string)
    (acc : nat * list string) : nat * list string :=
  if opt_bool_truthy sent then (S (fst acc), snd acc)
  else (fst acc, snd acc ++ [recipient]).

(** The [for recipient in recipients] loop of [send_email]. *)
Fixpoint send_loop (sender_email sender_password html_content : string)
    (recipients : list string) (acc : nat * list string) (w : World)
    : (nat * list string) * World :=
  match recipients with
  | [] => (acc, w)
  | recipient :: rest =>
      let w1 := sleep 2 w in
      let '(sent, w2) :=
        send_single_email sender_email sender_password recipient html_content
          default_retry_count default_retry_delay w1 in
      send_loop sender_email sender_password html_content rest
        (tally sent recipient acc) w2
  end.

Definition send_email (html_content : string) (recipients : list string)
    (w : World) : result (nat * list string) * World :=
  let sender_email := environ w !! "EMAIL_USER_WY" in
  let sender_password := environ w !! "EMAIL_PASSWORD_WY" in
  if negb (opt_str_truthy sender_email && opt_str_truthy sender_password)
  then (Raise (ValueError "Missing email configuration in environment variables"), w)
  else
    let '((success_count, failed_recipients), w') :=
      send_loop (default "" sender_email) (default "" sender_password)
        html_content recipients (0%nat, []) w in
    if Nat.eqb success_count 0
    then (Raise (PlainException "All email sending attempts failed"), w')
    else (Ret (success_count, failed_recipients), w').

(** The filter of the digest query:
    [{'content': {'$ne': None}, 'keywords': {'$ne': []}}].
    [$ne] compares values: a [keywords] field holding [None] is not
    equal to the empty array. *)
Definition content_ne_None (d : Document) : bool :=
  match doc_content d with
  | None => false
  | Some _ => true
  end.

Definition keywords_ne_empty (d : Document) : bool :=
  match doc_keywords d with
  | Some [] => false
  | _ => true
  end.

Definition digest_filter (d : Document) : bool :=
  content_ne_None d && keywords_ne_empty d.

(** [.sort('published_date', -1)]: newest first; documents with the
    same date stay in their natural order. *)
Fixpoint insert_desc (d : Document) (sorted : list Document) : list Document :=
  match sorted with
  | [] => [d]
  | x :: rest =>
      if published_date x <=? published_date d then d :: x :: rest
      else x :: insert_desc d rest
  end.

Definition sort_desc (docs : list Document) : list Document :=
  fold_right insert_desc [] docs.

(** [collection.find(filter, projection).sort('published_date', -1).limit(10)] *)
Definition find_latest (coll : list Document) : list Document :=
  take 10 (sort_desc (List.filter digest_filter coll)).

Definition format_news (news : Document) : NewsItem :=
  {| item_title := doc_title news;
     item_summary := doc_content news;
     item_key_words := doc_keywords news;
     item_url := doc_url news |}.

Definition get_latest_news_from_mongodb (w : World) : list NewsItem :=
  map format_news (find_latest (collection w)).

(** [s.find(c)]: index of the first occurrence, [-1] without one. *)
Fixpoint find_from (c : ascii) (s : string) (i : Z) : Z :=
  match s with
  | EmptyString => -1
  | String d rest => if Ascii.eqb d c then i else find_from c rest (i + 1)
  end.

Definition py_find (c : ascii) (s : string) : Z := find_from c s 0.

(** [s.rfind(c)]: index of the last occurrence, [-1] without one. *)
Fixpoint rfind_from (c : ascii) (s : string) (i last : Z) : Z :=
  match s with
  | EmptyString => last
  | String d rest => rfind_from c rest (i + 1) (if Ascii.eqb d c then i else last)
  end.

Definition py_rfind (c : ascii) (s : string) : Z := rfind_from c s 0 (-1).

(** [s[start:stop]] for [0 <= start] and [0 <= stop <= len(s)] *)
Definition py_slice (s : string) (start stop : Z) : string :=
  substring (Z.to_nat start) (Z.to_nat (stop - start)) s.

(** The fixed instruction that precedes the JSON text in the request
    of [translate2ZH]. *)
Definition translation_prompt : string :=
"你是一个英文翻译成中文的专家，请将以下JSON格式的内容翻成中文。要求：
1. 如果原文就是中文，则保持内容不变
2. 只翻译内容，不要修改JSON结构，保持JSON格式不变
3. 确保输出是有效的JSON格式
4. 中文要听起来自然流利
5. 直接返回翻译后的JSON，不要添加任何额外的解释文字

需要翻译的内容：
".

Section Digest.

(** [json.dumps(data, ensure_ascii=False)] and [json.loads] on a list
    of digest entries, and the text of the digest: the HTML template
    of [generate_email_html] with its three fields filled in. *)
Variable json_dumps : list NewsItem -> string.
Variable json_loads : string -> option (list NewsItem).
Variable render_email : list NewsItem -> string.

(** [generate_email_html]: both loops slice and join
    [article['key_words']]; on an entry whose [key_words] is [None]
    the slice raises [TypeError].  Titles, summaries and urls are only
    interpolated, which no value makes fail. *)
Definition has_key_words (article : NewsItem) : bool :=
  match item_key_words article with
  | Some _ => true
  | None => false
  end.

Definition generate_email_html (data : list NewsItem) : result string :=
  if forallb has_key_words data then Ret (render_email data)
  else Raise (TypeError "'NoneType' object is not subscriptable").

Definition translate2ZH (data : list NewsItem) (w : World)
    : result (list NewsItem) * World :=
  let json_str := json_dumps data in
  let content := (translation_prompt +:+ json_str)%string in
  match llm w content with
  | Raise e => (Raise e, w)
  | Ret translated_content =>
      let start := py_find "[" translated_content in
      let stop := py_rfind "]" translated_content + 1 in
      if (0 <=? start) && (0 <? stop) then
        match json_loads (py_slice translated_content start stop) with
        | Some translated => (Ret translated, w)
        | None => (Raise JSONDecodeError, w)
        end
      else (Raise (ValueError "No JSON array found in response"), w)
  end.

(** [recipients or self.recipients] *)
Definition recipients_or (recipients : option (list string))
    (self_recipients : list string) : list string :=
  match recipients with
  | Some (r :: rest) => r :: rest
  | _ => self_recipients
  end.

(** [process_and_send_news]; the [except Exception] clause logs and
    raises the same exception again. *)
Definition process_and_send_news (self_recipients : list string)
    (recipients : option (list string)) (w : World) : result bool * World :=
  let recipients := recipients_or recipients self_recipients in
  if negb (list_truthy recipients) then (Ret false, w)
  else
    let news_data := get_latest_news_from_mongodb w in
    match translate2ZH news_data w with
    | (Raise e, w1) => (Raise e, w1)
    | (Ret translated_data, w1) =>
        match generate_email_html translated_data with
        | Raise e => (Raise e, w1)
        | Ret email_html =>
            match send_email email_html recipients w1 with
            | (Raise e, w2) => (Raise e, w2)
            | (Ret _, w2) => (Ret true, w2)
            end
        end
    end.

End Digest.

End EmailService.

(** ** The crawler and the world of the ingestion pipeline *)

(** What [await crawler.arun(url=..., extraction_strategy=...)] can do:
    raise, return [None], or return a result whose [extracted_content]
    is [None] or a string. *)
Inductive arun_outcome : Type :=
| ArunRaises (e : exn)
| ArunNone
| ArunResult (extracted_content : option string).

(** [crawler n url] is the outcome of the [n]-th crawl ever made when
    it asks for [url]; [crawled] is the log of the urls asked for. *)
Record Ingest : Type := mkIngest {
  news_collection : list Document;
  clock : Z;
  crawler : nat -> string -> arun_outcome;
  crawled : list string;
  naps : list Z
}.

Definition set_news_collection (coll : list Document) (w : Ingest) : Ingest :=
  {| news_collection := coll; clock := clock w; crawler := crawler w;
     crawled := crawled w; naps := naps w |}.

Definition arun (url : string) (w : Ingest) : arun_outcome * Ingest :=
  (crawler w (length (crawled w)) url,
   {| news_collection := news_collection w; clock := clock w;
      crawler := crawler w; crawled := crawled w ++ [url]; naps := naps w |}).

(** [time.sleep(seconds)] *)
Definition nap (seconds : Z) (w : Ingest) : Ingest :=
  {| news_collection := news_collection w; clock := clock w + seconds;
     crawler := crawler w; crawled := crawled w; naps := naps w ++ [seconds] |}.

(** ** DetailPageExtractor.py *)

Module DetailPageExtractor.

(** The [key_words] entry of an extracted record: the LLM answers with
    a string or with a list; anything else ([null], a number, ...) is
    [KwOther]. *)
Inductive key_words_value : Type :=
| KwStr (s : string)
| KwList (l : list string)
| KwOther.

(** One object of the JSON array the detail prompt asks for; a field
    is [None] when its key is absent. *)
Record DetailRecord : Type := mkDetailRecord {
  detail_title : option string;
  detail_summary : option string;
  detail_key_words : option key_words_value
}.

Section Extract.

(** [json.loads] on the extracted content of a detail page, seen at
    the type the detail prompt asks for: [Some l] when the content
    parses to the list of objects [l]; [None] when [json.loads] raises
    [JSONDecodeError], or gives a value without a length, on which
    [len] raises and the answer is [None] just the same.  A content
    that parses to another value with a length (an object, a string)
    has no counterpart here. *)
Variable json_loads : string -> option (list DetailRecord).

(** [extract_detail_content]: every [Exception] of the crawl is caught,
    logged and turned into [None]. *)
Definition extract_detail_content (url : string) (w : Ingest)
    : result (option (list DetailRecord)) * Ingest :=
  if negb (str_truthy url) then (Ret None, w)
  else
    let '(crawl_result, w1) := arun url w in
    match crawl_result with
    | ArunRaises e => if is_Exception e then (Ret None, w1) else (Raise e, w1)
    | ArunNone => (Ret None, w1)
    | ArunResult None => (Ret None, w1)
    | ArunResult (Some extracted_content) =>
        match json_loads extracted_content with
        | Some detail_content => (Ret (Some detail_content), w1)
        | None => (Ret None, w1)
        end
    end.

End Extract.

(** The configuration a [DetailPageContentExtractor] holds. *)
Record Settings : Type := mkSettings {
  api_key : string;
  provider : string;
  instruction : string
}.

(** [__init__]: [all([api_key, provider, instruction])] must hold, a
    missing ([None]) or empty argument raises [ValueError]. *)
Definition init (given_api_key given_provider given_instruction : option string)
    : result Settings :=
  if negb (opt_str_truthy given_api_key && opt_str_truthy given_provider
           && opt_str_truthy given_instruction)
  then Raise (ValueError "API key, provider, and instruction must be non-empty")
  else Ret {| api_key := default "" given_api_key;
              provider := default "" given_provider;
              instruction := default "" given_instruction |}.

(** [reset]: every argument that [is not None] replaces its field. *)
Definition reset (new_api_key new_provider new_instruction : option string)
    (self : Settings) : Settings :=
  {| api_key := default (api_key self) new_api_key;
     provider := default (provider self) new_provider;
     instruction := default (instruction self) new_instruction |}.

End DetailPageExtractor.

(** ** ListPageExtractor.py *)

Module ListPageExtractor.

Import DetailPageExtractor.

(** [class TechFinancingNews(BaseModel)]: a stub of a listing page, its
    fields present and of the types the schema declares (the schema
    guides the extraction; the code does not check it). *)
Record TechFinancingNews : Type := mkTechFinancingNews {
  title : string;
  tag : string;
  further_url : string;
  post_time : string;
  summary : option string;
  key_words : option string
}.

(** The names bound in the module when [extract_detailPage] runs: its
    imports and its two classes. *)
Definition module_globals : list string :=
  ["os"; "json"; "asyncio"; "logging"; "datetime"; "timezone"; "timedelta";
   "BaseModel"; "Field"; "AsyncWebCrawler"; "LLMExtractionStrategy";
   "DetailPageContentExtractor"; "MongoClient"; "TechFinancingNews";
   "TechFinancingNewsExtractor"].

Definition bound (name : string) (globals : list string) : bool :=
  existsb (String.eqb name) globals.

(** The normalisation of [key_words] in [_format_news_document]. *)
Definition normalize_key_words (key_words : key_words_value) : list string :=
  match key_words with
  | KwStr s => if str_truthy s then py_split "," s else []
  | KwList l => l
  | KwOther => []
  end.

(** [{'$set': document}] with the document of [_format_news_document]:
    every field it has is overwritten, [last_updated] is not one of
    them. *)
Definition set_document (document old : Document) : Document :=
  {| doc_title := doc_title document; doc_url := doc_url document;
     published_date := published_date document;
     created_at := created_at document; doc_tags := doc_tags document;
     doc_language := doc_language document;
     doc_content := doc_content document;
     doc_keywords := doc_keywords document;
     last_updated := last_updated old |}.

(** [{'$set': {'content': ..., 'keywords': ..., 'last_updated': ...}}] *)
Definition set_detail (content : option string) (keywords : option (list string))
    (now : Z) (old : Document) : Document :=
  {| doc_title := doc_title old; doc_url := doc_url old;
     published_date := published_date old; created_at := created_at old;
     doc_tags := doc_tags old; doc_language := doc_language old;
     doc_content := content; doc_keywords := keywords;
     last_updated := Some now |}.

(** [existing_doc and existing_doc.get('keywords') and
    existing_doc.get('content')] *)
Definition complete (existing_doc : option Document) : bool :=
  match existing_doc with
  | None => false
  | Some d =>
      match doc_keywords d with
      | Some keywords => list_truthy keywords
      | None => false
      end && opt_str_truthy (doc_content d)
  end.

Section Extractor.

(** [datetime.strptime(s, '%Y-%m-%d').replace(tzinfo=utc8)]; [None] is
    [ValueError].  [json.loads] on a listing and on a detail page. *)
Variable strptime : string -> option Z.
Variable json_loads_news : string -> option (list TechFinancingNews).
Variable json_loads_detail : string -> option (list DetailRecord).

Definition _format_news_document (news_data : TechFinancingNews)
    (detail_content : option (list DetailRecord)) (w : Ingest) : Document :=
  let published := default (clock w) (strptime (post_time news_data)) in
  let document :=
    {| doc_title := title news_data;
       doc_url := further_url news_data;
       published_date := published;
       created_at := clock w;
       doc_tags := if str_truthy (tag news_data) then [tag news_data] else [];
       doc_language := "en";
       doc_content := None;
       doc_keywords := None;
       last_updated := None |} in
  match detail_content with
  | Some (first :: _) =>
      let key_words := default (KwStr "") (detail_key_words first) in
      let keywords := normalize_key_words key_words in
      {| doc_title := doc_title document; doc_url := doc_url document;
         published_date := published_date document;
         created_at := created_at document; doc_tags := doc_tags document;
         doc_language := doc_language document;
         doc_content := detail_summary first;
         doc_keywords := Some keywords;
         last_updated := None |}
  | _ => document
  end.

(** The [for news in news_data] loop of [extract_news_list], on stubs
    of the declared type and a store that answers every lookup and
    takes every write (the code prints what the store raises and goes
    on). *)
Fixpoint store_news (news_data all_processed_news : list TechFinancingNews)
    (w : Ingest) : list TechFinancingNews * Ingest :=
  match news_data with
  | [] => (all_processed_news, w)
  | news :: rest =>
      let all_processed_news := all_processed_news ++ [news] in
      match find_one (further_url news) (news_collection w) with
      | Some _ => store_news rest all_processed_news w
      | None =>
          let document := _format_news_document news None w in
          store_news rest all_processed_news
            (set_news_collection
               (upsert_one (doc_url document) (set_document document) document
                  (news_collection w)) w)
      end
  end.

(** The [for url in urls] loop of [extract_news_list].  An [Exception]
    while a source is processed is printed and the next source is
    taken. *)
Fixpoint extract_sources (urls : list string)
    (all_processed_news : list TechFinancingNews) (w : Ingest)
    : result (list TechFinancingNews) * Ingest :=
  match urls with
  | [] => (Ret all_processed_news, w)
  | url :: rest =>
      let '(crawl_result, w1) := arun url w in
      match crawl_result with
      | ArunRaises e =>
          if is_Exception e then extract_sources rest all_processed_news w1
          else (Raise e, w1)
      | ArunNone => extract_sources rest all_processed_news w1
      | ArunResult None => extract_sources rest all_processed_news w1
      | ArunResult (Some extracted_content) =>
          if negb (str_truthy extracted_content)
          then extract_sources rest all_processed_news w1
          else
            match json_loads_news extracted_content with
            | None => extract_sources rest all_processed_news w1
            | Some news_data =>
                let '(all_processed_news, w2) :=
                  store_news news_data all_processed_news w1 in
                extract_sources rest all_processed_news w2
            end
      end
  end.

(** [extract_news_list].  The list [urls] is a local constant of the
    method, empty in the repository (the listing pages are filled in
    per deployment); it is an argument here. *)
Definition extract_news_list (urls : list string) (w : Ingest)
    : result (list TechFinancingNews) * Ingest :=
  extract_sources urls [] w.

(** The [while True] loop of [extract_detailPage].  [None] is a loop
    that is still running when [fuel] iterations are over.  The class
    named in [except litellm.RateLimitError] and the module named in
    [time.sleep(30)] are looked up in [globals] when control reaches
    them; a name that is not bound raises [NameError]. *)
Fixpoint retry_extract (fuel : nat) (globals : list string)
    (detail_page_url : string) (w : Ingest)
    : option (result (option (list DetailRecord))) * Ingest :=
  match fuel with
  | O => (None, w)
  | S fuel' =>
      match extract_detail_content json_loads_detail detail_page_url w with
      | (Ret detail_page_result, w1) => (Some (Ret detail_page_result), w1)
      | (Raise e, w1) =>
          if bound "litellm" globals then
            if is_RateLimitError e then
              if bound "time" globals
              then retry_extract fuel' globals detail_page_url (nap 30 w1)
              else (Some (Raise (NameError "time")), w1)
            else (Some (Raise e), w1)
          else (Some (Raise (NameError "litellm")), w1)
      end
  end.

(** The [for news_block in news_data] loop of [extract_detailPage]. *)
Fixpoint backfill (fuel : nat) (globals : list string)
    (news_data : list TechFinancingNews) (w : Ingest)
    : option (result unit) * Ingest :=
  match news_data with
  | [] => (Some (Ret tt), w)
  | news_block :: rest =>
      let detail_page_url := further_url news_block in
      if negb (str_truthy detail_page_url) then backfill fuel globals rest w
      else
        let existing_doc := find_one detail_page_url (news_collection w) in
        if complete existing_doc then backfill fuel globals rest w
        else
          match retry_extract fuel globals detail_page_url w with
          | (None, w1) => (None, w1)
          | (Some (Raise e), w1) => (Some (Raise e), w1)
          | (Some (Ret None), w1) => backfill fuel globals rest w1
          | (Some (Ret (Some detail_page_result)), w1) =>
              let document :=
                _format_news_document news_block (Some detail_page_result) w1 in
              backfill fuel globals rest
                (set_news_collection
                   (update_one detail_page_url
                      (set_detail (doc_content document) (doc_keywords document)
                         (clock w1))
                      (news_collection w1)) w1)
          end
  end.

Definition extract_detailPage (fuel : nat) (news_data : list TechFinancingNews)
    (w : Ingest) : option (result unit) * Ingest :=
  backfill fuel module_globals news_data w.

(** The [__main__] block: the listing, then the backfill of the stubs
    it returned. *)
Definition run_pipeline (fuel : nat) (urls : list string) (w : Ingest)
    : option (result unit) * Ingest :=
  match extract_news_list urls w with
  | (Ret news_data, w1) => extract_detailPage fuel news_data w1
  | (Raise e, w1) => (Some (Raise e), w1)
  end.

End Extractor.

(** [TechFinancingNewsExtractor.__init__], as far as its arguments
    decide it: once the collection and its indexes are set up it builds
    the detail page extractor from [api_key], [provider] and
    [detail_instruction]. *)
Definition default_provider : string := "gemini/gemini-pro".

Definition new_extractor (given_api_key : option string) (given_provider : string)
    (detail_instruction : option string) : result Settings :=
  init given_api_key (Some given_provider) detail_instruction.

End ListPageExtractor.

(** ** scheduler.py *)

Module Scheduler.

(** The values of the configuration object: the two script paths are
    strings, the two time tables are lists of strings. *)
Inductive config_value : Type :=
| CfgStr (s : string)
| CfgList (l : list string).

(** [for time_str in value]: a list yields its elements, a string its
    characters. *)
Fixpoint chars (s : string) : list string :=
  match s with
  | EmptyString => []
  | String c rest => String c EmptyString :: chars rest
  end.

Definition py_iter (value : config_value) : list string :=
  match value with
  | CfgStr s => chars s
  | CfgList l => l
  end.

(** A registered job: [schedule.every().day.at(time_str).do(self.run_script, script)]. *)
Record Job : Type := mkJob {
  job_at : string;
  job_script : config_value
}.

(** The scheduler object ([self.config]), the configuration file on
    disk ([None]: no such file; otherwise the JSON object it holds, a
    file being what [save_config] wrote) and the job list of the
    [schedule] module. *)
Record TaskScheduler : Type := mkTaskScheduler {
  config : gmap string config_value;
  config_file : option (gmap string config_value);
  jobs : list Job
}.

Definition default_config : gmap string config_value :=
  <["crawler_times" := CfgList ["08:00"]]>
  (<["email_times" := CfgList ["16:25"]]>
  (<["crawler_script" := CfgStr "ListPageExtractor.py"]>
  (<["email_script" := CfgStr "EmailService.py"]> ∅))).

Definition save_config (s : TaskScheduler) : TaskScheduler :=
  {| config := config s; config_file := Some (config s); jobs := jobs s |}.

Definition load_config (s : TaskScheduler) : TaskScheduler :=
  match config_file s with
  | Some loaded => {| config := loaded; config_file := config_file s; jobs := jobs s |}
  | None =>
      save_config {| config := default_config; config_file := config_file s; jobs := jobs s |}
  end.

Section Schedule.

(** [schedule]'s check of the argument of [at] for a daily job; a
    refused string raises [ScheduleValueError]. *)
Variable at_accepts : string -> bool.

(** One of the two [for time_str in ...] loops of [setup_schedule]:
    the jobs registered before a refused time stay registered. *)
Fixpoint register (times : list string) (script : config_value)
    (registered : list Job) : result unit * list Job :=
  match times with
  | [] => (Ret tt, registered)
  | time_str :: rest =>
      if at_accepts time_str
      then register rest script (registered ++ [mkJob time_str script])
      else (Raise (ScheduleValueError time_str), registered)
  end.

Definition setup_schedule (s : TaskScheduler) : result unit * TaskScheduler :=
  let cleared : list Job := [] in
  let crawler_times := default (CfgList []) (config s !! "crawler_times") in
  let crawler_script :=
    default (CfgStr "ListPageExtractor.py") (config s !! "crawler_script") in
  match register (py_iter crawler_times) crawler_script cleared with
  | (Raise e, registered) =>
      (Raise e, {| config := config s; config_file := config_file s; jobs := registered |})
  | (Ret _, registered) =>
      let email_times := default (CfgList []) (config s !! "email_times") in
      let email_script :=
        default (CfgStr "EmailService.py") (config s !! "email_script") in
      let '(r, registered) := register (py_iter email_times) email_script registered in
      (r, {| config := config s; config_file := config_file s; jobs := registered |})
  end.

Definition set_times (task_type : string) (times : list string)
    (s : TaskScheduler) : result unit * TaskScheduler :=
  let updated :=
    if String.eqb task_type "crawler"
    then <["crawler_times" := CfgList times]> (config s)
    else if String.eqb task_type "email"
         then <["email_times" := CfgList times]> (config s)
         else config s in
  setup_schedule
    (save_config {| config := updated; config_file := config_file s; jobs := jobs s |}).

End Schedule.

(** [TaskScheduler()] in a new process: the configuration is loaded
    (or created), no job is registered yet. *)
Definition new_scheduler (file : option (gmap string config_value)) : TaskScheduler :=
  load_config {| config := ∅; config_file := file; jobs := [] |}.

(** A check of the shape [HH:MM] with [HH <= 23], [MM <= 59], as one
    instance of what [at] accepts. *)
Definition is_digit_upto (hi : nat) (c : ascii) : bool :=
  (48 <=? nat_of_ascii c)%nat && (nat_of_ascii c <=? 48 + hi)%nat.

Definition hh_mm (time_str : string) : bool :=
  match time_str with
  | String h1 (String h2 (String colon (String m1 (String m2 EmptyString)))) =>
      is_digit_upto 2 h1 && is_digit_upto 9 h2 && Ascii.eqb colon ":"
      && is_digit_upto 5 m1 && is_digit_upto 9 m2
      && negb (Ascii.eqb h1 "2" && negb (is_digit_upto 3 h2))
  | _ => false
  end.

End Scheduler.

(** * Vocabulary of the statements, and sample worlds *)

(** A document with non-null [content] and a non-empty [keywords]
    list. *)
Definition has_content_and_keywords (d : Document) : Prop :=
  doc_content d <> None
  /\ exists keyword others, doc_keywords d = Some (keyword :: others).

(** [a] is not older than [b]; [a] is newer than [b]. *)
Definition not_older (a b : Document) : Prop :=
  published_date b <= published_date a.

Definition newer (a b : Document) : Prop :=
  published_date b < published_date a.

(** What the writes of the ingestion pipeline keep true of a stored
    document: [keywords] is null only while [content] is. *)
Definition keywords_with_content (d : Document) : Prop :=
  doc_keywords d = None -> doc_content d = None.

Module EmailSamples.

Import EmailService.

(** What becomes of each recipient of [send_email]: the recipient and
    the answer of the one SMTP session the default [retry_count] gives
    it, the first recipient getting session number [n]. *)
Fixpoint deliveries (transport : nat -> string -> bool) (n : nat)
    (recipients : list string) : list (string * bool) :=
  match recipients with
  | [] => []
  | recipient :: rest =>
      (recipient, transport n recipient) :: deliveries transport (S n) rest
  end.

Definition delivered (fates : list (string * bool)) : list string :=
  map fst (filter (fun fate => snd fate = true) fates).

Definition undelivered (fates : list (string * bool)) : list string :=
  map fst (filter (fun fate => snd fate = false) fates).

(** [all([sender_email, sender_password])] *)
Definition credentials_configured (w : World) : bool :=
  opt_str_truthy (environ w !! "EMAIL_USER_WY")
  && opt_str_truthy (environ w !! "EMAIL_PASSWORD_WY").

(** A transport whose first two sessions fail. *)
Definition flaky_world : World :=
  {| environ := ∅; collection := [];
     smtp := fun n _ => (2 <=? n)%nat;
     smtp_sessions := 0; outbox := []; slept := [];
     llm := fun _ => Raise (ProviderError "offline") |}.

(** No credentials in the environment, a transport that never fails. *)
Definition bare_world : World :=
  {| environ := ∅; collection := [];
     smtp := fun _ _ => true;
     smtp_sessions := 0; outbox := []; slept := [];
     llm := fun _ => Raise (ProviderError "offline") |}.

(** Both credentials set; the transport refuses the recipients whose
    address is empty. *)
Definition office_world : World :=
  {| environ := <["EMAIL_USER_WY" := "me@163.com"]>
                  (<["EMAIL_PASSWORD_WY" := "secret"]> ∅);
     collection := [];
     smtp := fun _ recipient => str_truthy recipient;
     smtp_sessions := 0; outbox := []; slept := [];
     llm := fun _ => Raise (ProviderError "offline") |}.

(** A store holding one document that has a summary and a null
    [keywords] field. *)
Definition half_filled : Document :=
  {| doc_title := "Seed round"; doc_url := "https://news.example/seed";
     published_date := 1700000000; created_at := 1700000000;
     doc_tags := ["Venture"]; doc_language := "en";
     doc_content := Some "A start-up raised a seed round.";
     doc_keywords := None; last_updated := None |}.

Definition half_filled_world : World :=
  {| environ := ∅; collection := [half_filled];
     smtp := fun _ _ => true;
     smtp_sessions := 0; outbox := []; slept := [];
     llm := fun _ => Raise (ProviderError "offline") |}.

(** Fifteen complete documents, published on fifteen different days,
    stored in no particular order. *)
Definition article (day : Z) : Document :=
  {| doc_title := "Article"; 
     doc_url := String (ascii_of_nat (Z.to_nat (64 + day))) EmptyString;
     published_date := 86400 * day; created_at := 86400 * day;
     doc_tags := ["AI"]; doc_language := "en";
     doc_content := Some "Summary.";
     doc_keywords := Some ["ai"; " startups"]; last_updated := Some (86400 * day) |}.

Definition fortnight : list Document :=
  map article [3; 11; 7; 15; 1; 9; 13; 5; 2; 14; 6; 10; 4; 12; 8].

Definition fortnight_world : World :=
  {| environ := ∅; collection := fortnight;
     smtp := fun _ _ => true;
     smtp_sessions := 0; outbox := []; slept := [];
     llm := fun _ => Raise (ProviderError "offline") |}.

(** Both credentials set, a transport that never fails, and a
    translation API that wraps its array in a sentence. *)
Definition chatty_world : World :=
  {| environ := <["EMAIL_USER_WY" := "me@163.com"]>
                  (<["EMAIL_PASSWORD_WY" := "secret"]> ∅);
     collection := fortnight;
     smtp := fun _ _ => true;
     smtp_sessions := 0; outbox := []; slept := [];
     llm := fun _ => Ret "Here is the translation: [{...}] I hope it helps." |}.

End EmailSamples.


Module IngestSamples.

Import DetailPageExtractor ListPageExtractor.


(** A date parser for the samples: nothing parses, every document is
    dated by the clock. *)
Definition no_date (post_time : string) : option Z := None.

Definition funding_round : TechFinancingNews :=
  {| title := "Robotics start-up closes its series A";
     tag := "Venture";
     further_url := "https://news.example/series-a";
     post_time := "2024-11-28";
     summary := None;
     key_words := None |}.

Definition funding_detail : DetailRecord :=
  {| detail_title := Some "Robotics start-up closes its series A";
     detail_summary := Some "The round was led by two funds.";
     detail_key_words := Some (KwStr "ai, startups, funding") |}.

(** [json.loads] for the samples: any page content parses to the one
    detail record, or to the one stub. *)
Definition one_detail (extracted_content : string) : option (list DetailRecord) :=
  Some [funding_detail].

Definition one_stub (extracted_content : string) : option (list TechFinancingNews) :=
  Some [funding_round].

(** An empty store; the provider refuses the first crawl with a rate
    limit error and answers every later one. *)
Definition rate_limited : Ingest :=
  {| news_collection := []; clock := 1732752000;
     crawler := fun n _ =>
       match n with
       | O => ArunRaises RateLimitError
       | S _ => ArunResult (Some "[{...}]")
       end;
     crawled := []; naps := [] |}.

(** An empty store; the first crawl is interrupted from the keyboard. *)
Definition interrupted : Ingest :=
  {| news_collection := []; clock := 1732752000;
     crawler := fun n _ =>
       match n with
       | O => ArunRaises KeyboardInterrupt
       | S _ => ArunResult (Some "[{...}]")
       end;
     crawled := []; naps := [] |}.

(** The stored document of [funding_round] has keywords and an empty
    summary; the provider answers every crawl. *)
Definition empty_summary : Document :=
  {| doc_title := "Robotics start-up closes its series A";
     doc_url := "https://news.example/series-a";
     published_date := 1732723200; created_at := 1732723200;
     doc_tags := ["Venture"]; doc_language := "en";
     doc_content := Some "";
     doc_keywords := Some ["ai"; " startups"; " funding"];
     last_updated := Some 1732723300 |}.

Definition summary_missing : Ingest :=
  {| news_collection := [empty_summary]; clock := 1732752000;
     crawler := fun _ _ => ArunResult (Some "[{...}]");
     crawled := []; naps := [] |}.

(** An empty store and a listing page that always shows the same
    content. *)
Definition steady_source : Ingest :=
  {| news_collection := []; clock := 1732752000;
     crawler := fun _ _ => ArunResult (Some "[{...}]");
     crawled := []; naps := [] |}.




(** What identifies a stored document and dates it: every field the
    detail backfill has no business with. *)
Definition identity_of (d : Document)
    : string * string * Z * Z * list string * string :=
  (doc_title d, doc_url d, published_date d, created_at d, doc_tags d,
   doc_language d).

End IngestSamples.

Module SchedulerSamples.

Import Scheduler.

(** The times of a table up to the first one [at] refuses: those whose
    job gets registered. *)
Fixpoint accepted (at_accepts : string -> bool) (times : list string) : list string :=
  match times with
  | [] => []
  | time_str :: rest =>
      if at_accepts time_str then time_str :: accepted at_accepts rest else []
  end.

(** The jobs of one script at the given times. *)
Definition daily (script : config_value) (times : list string) : list Job :=
  map (fun time_str => mkJob time_str script) times.

(** A scheduler just built from the default configuration, with one
    stale job registered. *)
Definition fresh_scheduler : TaskScheduler :=
  {| config := default_config;
     config_file := Some default_config;
     jobs := [mkJob "08:00" (CfgStr "ListPageExtractor.py")] |}.

End SchedulerSamples.

(** * Properties *)

(** ** Strings *)

Lemma append_nil_r (s : string) : (s +:+ "")%string = s.
Proof.
  induction s as [|c s IH]; [reflexivity|].
  change (String c (s +:+ "") = String c s)%string. congruence.
Qed.

Lemma append_snoc (s t : string) (c : ascii) :
  ((s +:+ String c EmptyString) +:+ t)%string = (s +:+ String c t)%string.
Proof.
  induction s as [|d s IH]; [reflexivity|].
  change (String d ((s +:+ String c EmptyString) +:+ t)
          = String d (s +:+ String c t))%string.
  congruence.
Qed.

Lemma split_acc_cons (sep : ascii) (s cur : string) :
  exists p ps, split_acc sep cur s = p :: ps.
Proof.
  revert cur; induction s as [|c rest IH]; intro cur; simpl; eauto.
  destruct (Ascii.eqb c sep); eauto.
Qed.

Lemma split_acc_join (sep : ascii) (s cur : string) :
  py_join sep (split_acc sep cur s) = (cur +:+ s)%string.
Proof.
  revert cur; induction s as [|c rest IH]; intro cur; simpl.
  - symmetry; apply append_nil_r.
  - destruct (Ascii.eqb c sep) eqn:Hc.
    + apply Ascii.eqb_eq in Hc; subst c.
      specialize (IH EmptyString).
      destruct (split_acc_cons sep rest EmptyString) as (p & ps & Hsp).
      rewrite Hsp in *.
      change (py_join sep (cur :: p :: ps))
        with (cur +:+ String sep (py_join sep (p :: ps)))%string.
      rewrite IH; reflexivity.
    + rewrite IH. apply append_snoc.
Qed.

Lemma contains_char_snoc (sep c : ascii) (cur : string) :
  contains_char sep cur = false -> Ascii.eqb c sep = false ->
  contains_char sep (cur +:+ String c EmptyString) = false.
Proof.
  intros Hcur Hc; induction cur as [|d cur' IHc].
  - cbv [String.append contains_char]. rewrite Hc; reflexivity.
  - change (Ascii.eqb d sep
            || contains_char sep (cur' +:+ String c EmptyString) = false).
    simpl in Hcur. apply orb_false_iff in Hcur as [Hd Hrest].
    rewrite Hd; simpl; auto.
Qed.

Lemma split_acc_pieces (sep : ascii) (s cur : string) :
  contains_char sep cur = false ->
  Forall (fun piece => contains_char sep piece = false) (split_acc sep cur s).
Proof.
  revert cur; induction s as [|c rest IH]; intros cur Hcur; simpl.
  - constructor; [exact Hcur | constructor].
  - destruct (Ascii.eqb c sep) eqn:Hc.
    + constructor; [exact Hcur | apply IH; reflexivity].
    + apply IH, contains_char_snoc; assumption.
Qed.

(** ** EmailService.py *)

Module EmailServiceFacts.

Import EmailService EmailSamples.

Lemma py_range_3 : py_range 3 = [0; 1; 2].
Proof. reflexivity. Qed.

(** The three ways through one iteration of the attempt loop. *)
Lemma send_attempts_sent (recipient html_content : string)
    (retry_count retry_delay attempt : Z) (rest : list Z) (w : World) :
  smtp w (smtp_sessions w) recipient = true ->
  send_attempts recipient html_content retry_count retry_delay
    (attempt :: rest) w
  = (Some true, snd (smtp_session recipient html_content w)).
Proof. intros Hok. cbn [send_attempts smtp_session snd]. rewrite Hok. reflexivity. Qed.

Lemma send_attempts_again (recipient html_content : string)
    (retry_count retry_delay attempt : Z) (rest : list Z) (w : World) :
  smtp w (smtp_sessions w) recipient = false ->
  attempt < retry_count - 1 ->
  send_attempts recipient html_content retry_count retry_delay
    (attempt :: rest) w
  = send_attempts recipient html_content retry_count retry_delay rest
      (sleep retry_delay (snd (smtp_session recipient html_content w))).
Proof.
  intros Hok Hlt. cbn [send_attempts smtp_session snd]. rewrite Hok.
  apply Z.ltb_lt in Hlt. rewrite Hlt. reflexivity.
Qed.

Lemma send_attempts_given_up (recipient html_content : string)
    (retry_count retry_delay attempt : Z) (rest : list Z) (w : World) :
  smtp w (smtp_sessions w) recipient = false ->
  retry_count - 1 <= attempt ->
  send_attempts recipient html_content retry_count retry_delay
    (attempt :: rest) w
  = (Some false, snd (smtp_session recipient html_content w)).
Proof.
  intros Hok Hge. cbn [send_attempts smtp_session snd]. rewrite Hok.
  apply Z.ltb_ge in Hge. rewrite Hge. reflexivity.
Qed.

(** C7.  [send_single_email] with [retry_count = 3], facing a transport
    whose next two sessions fail and whose third goes through, returns
    [True]; it has slept exactly twice, each time for [retry_delay],
    has opened three sessions and has delivered the message once. *)
Theorem send_single_email_third_attempt
    (sender_email sender_password recipient html_content : string)
    (retry_delay : Z) (w : World) :
  smtp w (smtp_sessions w) recipient = false ->
  smtp w (S (smtp_sessions w)) recipient = false ->
  smtp w (S (S (smtp_sessions w))) recipient = true ->
  let run := send_single_email sender_email sender_password recipient
               html_content 3 retry_delay w in
  fst run = Some true
  /\ slept (snd run) = slept w ++ [retry_delay; retry_delay]
  /\ smtp_sessions (snd run) = (smtp_sessions w + 3)%nat
  /\ outbox (snd run) = outbox w ++ [(recipient, html_content)].
Proof.
  intros H1 H2 H3 run. subst run.
  unfold send_single_email. rewrite py_range_3.
  rewrite send_attempts_again by (try lia; exact H1).
  rewrite send_attempts_again
    by (try lia; exact H2).
  rewrite send_attempts_sent
    by exact H3.
  cbn [smtp_session sleep snd fst smtp smtp_sessions slept outbox].
  rewrite H1, H2, H3.
  repeat split.
  - rewrite <- app_assoc. reflexivity.
  - cbn [smtp_sessions]. lia.
Qed.

Lemma send_single_email_third_attempt_witness :
  let run := send_single_email "me@163.com" "secret" "you@example.com"
               "<html></html>" 3 5 flaky_world in
  fst run = Some true
  /\ slept (snd run) = slept flaky_world ++ [5; 5]
  /\ smtp_sessions (snd run) = (smtp_sessions flaky_world + 3)%nat
  /\ outbox (snd run) = outbox flaky_world ++ [("you@example.com", "<html></html>")].
Proof.
  apply (send_single_email_third_attempt "me@163.com" "secret"
           "you@example.com" "<html></html>" 5 flaky_world);
    reflexivity.
Defined.

(** C10.  With [retry_count = 0] the attempt loop of
    [send_single_email] has no iteration: no session is opened, nothing
    is slept, and the value returned is [None], neither [True] nor
    [False]; the branch of [send_email] on that value puts the
    recipient among the failed ones and leaves the success count. *)
Theorem send_single_email_no_attempt
    (sender_email sender_password recipient html_content : string)
    (retry_delay : Z) (w : World) (acc : nat * list string) :
  py_range 0 = []
  /\ send_single_email sender_email sender_password recipient html_content
       0 retry_delay w = (None, w)
  /\ tally (fst (send_single_email sender_email sender_password recipient
                   html_content 0 retry_delay w)) recipient acc
     = (fst acc, snd acc ++ [recipient]).
Proof.
  repeat split.
Qed.

(** [send_single_email] as [send_email] calls it (one attempt): the
    answer of the next session, as [True] or [False]. *)
Lemma send_single_email_default
    (sender_email sender_password recipient html_content : string) (w : World) :
  send_single_email sender_email sender_password recipient html_content
    default_retry_count default_retry_delay w
  = (Some (smtp w (smtp_sessions w) recipient),
     snd (smtp_session recipient html_content w)).
Proof.
  unfold send_single_email, default_retry_count.
  change (py_range 1) with [0].
  destruct (smtp w (smtp_sessions w) recipient) eqn:Hok.
  - apply send_attempts_sent; exact Hok.
  - apply send_attempts_given_up; [exact Hok | lia].
Qed.

Lemma filter_snd_true_cons (fate : string * bool) (fates : list (string * bool)) :
  delivered (fate :: fates)
  = if snd fate then fst fate :: delivered fates else delivered fates.
Proof.
  unfold delivered. rewrite filter_cons.
  destruct fate as [r [|]]; cbn [snd fst]; case_decide; try congruence; reflexivity.
Qed.

Lemma undelivered_cons (fate : string * bool) (fates : list (string * bool)) :
  undelivered (fate :: fates)
  = if snd fate then undelivered fates else fst fate :: undelivered fates.
Proof.
  unfold undelivered. rewrite filter_cons.
  destruct fate as [r [|]]; cbn [snd fst]; case_decide; try congruence; reflexivity.
Qed.

(** The recipient loop: one session each, in order; the tallies are
    those of [deliveries]. *)
Lemma send_loop_deliveries (sender_email sender_password html_content : string)
    (recipients : list string) :
  forall (acc : nat * list string) (w : World),
    let fates := deliveries (smtp w) (smtp_sessions w) recipients in
    let run := send_loop sender_email sender_password html_content
                 recipients acc w in
    fst run = ((fst acc + length (delivered fates))%nat,
               snd acc ++ undelivered fates)
    /\ smtp (snd run) = smtp w
    /\ smtp_sessions (snd run) = (smtp_sessions w + length recipients)%nat
    /\ environ (snd run) = environ w.
Proof.
  induction recipients as [|recipient rest IH]; intros acc w; cbn zeta.
  - cbn. rewrite Nat.add_0_r, app_nil_r. destruct acc; auto.
  - cbn [send_loop]. rewrite send_single_email_default.
    specialize (IH (tally (Some (smtp (sleep 2 w) (smtp_sessions (sleep 2 w)) recipient))
                      recipient acc)
                   (snd (smtp_session recipient html_content (sleep 2 w)))).
    cbn zeta in IH. destruct IH as (Hacc & Hsmtp & Hn & Henv).
    cbn [deliveries]. rewrite filter_snd_true_cons, undelivered_cons.
    cbn [smtp_session sleep snd fst smtp smtp_sessions environ] in *.
    rewrite Hacc, Hsmtp, Hn, Henv.
    unfold tally. cbn [opt_bool_truthy].
    destruct (smtp w (smtp_sessions w) recipient); cbn [fst snd length].
    + repeat split; try lia. f_equal. lia.
    + repeat split; try lia. rewrite <- app_assoc. reflexivity.
Qed.

Lemma delivered_nil_iff (fates : list (string * bool)) :
  length (delivered fates) = 0%nat <-> Forall (fun fate => snd fate = false) fates.
Proof.
  induction fates as [|fate fates IH].
  - split; [constructor | reflexivity].
  - rewrite filter_snd_true_cons, Forall_cons.
    destruct fate as [r [|]]; cbn [snd fst length].
    + split; [discriminate | intros [H _]; discriminate].
    + rewrite IH. tauto.
Qed.

(** C4, the claim as stated, fails: with no credentials in the
    environment [send_email] raises although the transport would have
    delivered to the only recipient; no session was opened. *)
Lemma send_email_raises_before_any_send :
  raised (fst (send_email "<html></html>" ["you@example.com"] bare_world))
  /\ ~ Forall (fun fate => snd fate = false)
         (deliveries (smtp bare_world) (smtp_sessions bare_world)
            ["you@example.com"])
  /\ snd (send_email "<html></html>" ["you@example.com"] bare_world) = bare_world.
Proof.
  split; [|split].
  - vm_compute. exact I.
  - intros H. apply Forall_cons in H as [H _]. discriminate H.
  - reflexivity.
Qed.

(** C4, amended.  Over a non-empty recipient list: when both
    credentials are configured, [send_email] raises exactly when every
    recipient's send failed, and otherwise returns the number of
    recipients reached and the list of those not reached, in order;
    when a credential is missing it raises [ValueError] before any
    send. *)
Theorem send_email_fails_iff_all_failed
    (html_content : string) (recipients : list string) (w : World) :
  recipients <> [] ->
  let fates := deliveries (smtp w) (smtp_sessions w) recipients in
  (credentials_configured w = true ->
     (raised (fst (send_email html_content recipients w))
        <-> Forall (fun fate => snd fate = false) fates)
     /\ (Exists (fun fate => snd fate = true) fates ->
           fst (send_email html_content recipients w)
           = Ret (length (delivered fates), undelivered fates)))
  /\ (credentials_configured w = false ->
        send_email html_content recipients w
        = (Raise (ValueError "Missing email configuration in environment variables"), w)).
Proof.
  intros _ fates. unfold send_email, credentials_configured.
  split; intros Hcred; rewrite Hcred; cbn [negb]; [|reflexivity].
  pose proof (send_loop_deliveries
                (default "" (environ w !! "EMAIL_USER_WY"))
                (default "" (environ w !! "EMAIL_PASSWORD_WY"))
                html_content recipients (0%nat, []) w) as Hloop.
  cbn zeta in Hloop. destruct Hloop as (Hacc & _).
  fold fates in Hacc.
  destruct (send_loop _ _ html_content recipients (0%nat, []) w)
    as [[success_count failed_recipients] w'] eqn:Hrun.
  cbn [fst snd] in Hacc. injection Hacc as Hcount Hfailed.
  try rewrite app_nil_l in Hfailed. try rewrite Nat.add_0_l in Hcount.
  rewrite Hcount, Hfailed.
  destruct (Nat.eqb (length (delivered fates)) 0) eqn:Hzero; cbn [fst].
  - apply Nat.eqb_eq in Hzero. split.
    + split; [intros _; apply delivered_nil_iff; exact Hzero | intros _; exact I].
    + intros Hex. apply delivered_nil_iff in Hzero.
      apply Exists_exists in Hex as (fate & Hin & Htrue).
      rewrite Forall_forall in Hzero.
      specialize (Hzero _ Hin). congruence.
  - apply Nat.eqb_neq in Hzero. split.
    + split; [intros [] | intros Hall; apply delivered_nil_iff in Hall; contradiction].
    + reflexivity.
Qed.

Lemma send_email_fails_iff_all_failed_witness :
  let recipients := ["you@example.com"; ""; "them@example.com"] in
  let fates := deliveries (smtp office_world) (smtp_sessions office_world) recipients in
  (credentials_configured office_world = true ->
     (raised (fst (send_email "<html></html>" recipients office_world))
        <-> Forall (fun fate => snd fate = false) fates)
     /\ (Exists (fun fate => snd fate = true) fates ->
           fst (send_email "<html></html>" recipients office_world)
           = Ret (length (delivered fates), undelivered fates)))
  /\ (credentials_configured office_world = false ->
        send_email "<html></html>" recipients office_world
        = (Raise (ValueError "Missing email configuration in environment variables"),
           office_world)).
Proof.
  apply (send_email_fails_iff_all_failed "<html></html>"
           ["you@example.com"; ""; "them@example.com"] office_world).
  discriminate.
Defined.

(** C3, the claim as stated, fails: called with an empty recipient
    list by a service that has none configured either,
    [process_and_send_news] returns [False]; nothing is raised and the
    world is as before. *)
Lemma process_and_send_news_empty_returns_False :
  process_and_send_news (fun _ => "[]") (fun _ => Some []) (fun _ => "<html></html>")
    [] (Some []) bare_world
  = (Ret false, bare_world)
  /\ ~ raised (fst (process_and_send_news (fun _ => "[]") (fun _ => Some [])
                     (fun _ => "<html></html>") [] (Some []) bare_world)).
Proof.
  split; [reflexivity | intros H; exact H].
Qed.

(** *** The digest query *)

Lemma insert_desc_perm (d : Document) (sorted : list Document) :
  Permutation (insert_desc d sorted) (d :: sorted).
Proof.
  induction sorted as [|x rest IH]; cbn [insert_desc]; [reflexivity|].
  destruct (published_date x <=? published_date d); [reflexivity|].
  rewrite IH. apply perm_swap.
Qed.

Lemma sort_desc_perm (docs : list Document) : Permutation (sort_desc docs) docs.
Proof.
  induction docs as [|d docs IH]; cbn [sort_desc fold_right]; [reflexivity|].
  fold (sort_desc docs). rewrite insert_desc_perm, IH. reflexivity.
Qed.

Lemma insert_desc_sorted (d : Document) (sorted : list Document) :
  StronglySorted not_older sorted ->
  StronglySorted not_older (insert_desc d sorted).
Proof.
  induction 1 as [|x rest Hrest IH Hx]; cbn [insert_desc].
  - repeat constructor.
  - destruct (published_date x <=? published_date d) eqn:Hcmp.
    + apply Z.leb_le in Hcmp.
      constructor; [constructor; assumption|].
      constructor; [exact Hcmp|].
      eapply Forall_impl; [exact Hx|].
      unfold not_older; intros y Hy; cbn beta in *; lia.
    + apply Z.leb_gt in Hcmp.
      constructor; [exact IH|].
      apply Forall_forall. intros y Hy.
      apply list_elem_of_In in Hy.
      apply (Permutation_in _ (insert_desc_perm d rest)) in Hy.
      destruct Hy as [<-|Hy]; [unfold not_older; lia|].
      rewrite Forall_forall in Hx. apply Hx, list_elem_of_In, Hy.
Qed.

Lemma sort_desc_sorted (docs : list Document) :
  StronglySorted not_older (sort_desc docs).
Proof.
  induction docs as [|d docs IH]; cbn [sort_desc fold_right]; [constructor|].
  apply insert_desc_sorted, IH.
Qed.

(** The query result, and what it leaves out, split the matching
    documents; nothing left out is newer than something returned. *)
Lemma find_latest_newest (coll : list Document) :
  let matching := List.filter digest_filter coll in
  let left_out := drop 10 (sort_desc matching) in
  Permutation matching (find_latest coll ++ left_out)
  /\ StronglySorted not_older (find_latest coll)
  /\ length (find_latest coll) = Nat.min 10 (length matching)
  /\ (forall d x, In d (find_latest coll) -> In x left_out -> not_older d x).
Proof.
  intros matching left_out. unfold find_latest. fold matching.
  pose proof (sort_desc_sorted matching) as Hsorted.
  rewrite <- (take_drop 10 (sort_desc matching)) in Hsorted.
  fold left_out in Hsorted.
  repeat split.
  - unfold left_out. rewrite take_drop. symmetry. apply sort_desc_perm.
  - eapply StronglySorted_app_1_l, Hsorted.
  - rewrite length_take. f_equal. apply Permutation_length, sort_desc_perm.
  - intros d x Hd Hx.
    eapply (StronglySorted_app_1_elem_of not_older); eauto;
      apply list_elem_of_In; assumption.
Qed.

Lemma digest_filter_spec (d : Document) :
  digest_filter d = true <-> doc_content d <> None /\ doc_keywords d <> Some [].
Proof.
  unfold digest_filter, content_ne_None, keywords_ne_empty.
  destruct (doc_content d), (doc_keywords d) as [[|k ks]|]; cbn;
    intuition congruence.
Qed.

Lemma digest_filter_complete (d : Document) :
  keywords_with_content d ->
  (digest_filter d = true <-> has_content_and_keywords d).
Proof.
  unfold keywords_with_content, has_content_and_keywords.
  intros Hinv. rewrite digest_filter_spec. split.
  - intros [Hc Hk]. split; [exact Hc|].
    destruct (doc_keywords d) as [[|k ks]|] eqn:E.
    + congruence.
    + eauto.
    + exfalso. apply Hc, Hinv. reflexivity.
  - intros [Hc (k & ks & Hk)]. split; [exact Hc | rewrite Hk; discriminate].
Qed.

Lemma has_content_and_keywords_filter (d : Document) :
  has_content_and_keywords d -> digest_filter d = true.
Proof.
  intros [Hc (k & ks & Hk)]. apply digest_filter_spec.
  split; [exact Hc | rewrite Hk; discriminate].
Qed.

Lemma filter_all (coll : list Document) :
  (forall d, In d coll -> has_content_and_keywords d) ->
  List.filter digest_filter coll = coll.
Proof.
  induction coll as [|d coll IH]; intros Hall; cbn [List.filter]; [reflexivity|].
  rewrite has_content_and_keywords_filter by (apply Hall; left; reflexivity).
  f_equal. apply IH. intros x Hx. apply Hall. right; exact Hx.
Qed.

Lemma sorted_distinct_newer (docs : list Document) :
  StronglySorted not_older docs ->
  NoDup (map published_date docs) ->
  StronglySorted newer docs.
Proof.
  induction 1 as [|x rest Hrest IH Hx]; intros Hnd; [constructor|].
  cbn [map] in Hnd. apply NoDup_cons in Hnd as [Hfresh Hnd].
  constructor; [apply IH, Hnd|].
  rewrite Forall_forall in Hx |- *. intros y Hy.
  specialize (Hx y Hy). unfold not_older, newer in *.
  assert (published_date y <> published_date x); [|lia].
  intros Heq. apply Hfresh. rewrite <- Heq.
  apply list_elem_of_In, in_map, list_elem_of_In, Hy.
Qed.

(** C5, the claim as stated, fails: a stored document with a summary
    and a null [keywords] field passes the filter [{'$ne': []}] and is
    returned by the digest query, without having a non-empty keywords
    list. *)
Lemma digest_returns_null_keywords :
  get_latest_news_from_mongodb half_filled_world = [format_news half_filled]
  /\ ~ has_content_and_keywords half_filled.
Proof.
  split; [reflexivity|].
  intros [_ (k & ks & Hk)]. discriminate Hk.
Qed.

(** C5, amended.  For every store state the digest query returns, as
    digest entries, documents taken among those with non-null [content]
    whose [keywords] is not the empty list (a null [keywords] passes),
    newest [published_date] first, at most 10 of them and none older
    than a matching document left out; on a store where [keywords] is
    null only when [content] is, the matching documents are exactly
    those with non-null content and a non-empty keywords list; given 15
    complete documents with distinct [published_date], the result is
    exactly the 10 most recent ones in strictly descending order. *)
Theorem get_latest_news_digest (w : World) :
  let matching := List.filter digest_filter (collection w) in
  let latest := find_latest (collection w) in
  get_latest_news_from_mongodb w = map format_news latest
  /\ (forall d, In d matching <->
        In d (collection w) /\ doc_content d <> None /\ doc_keywords d <> Some [])
  /\ (Forall keywords_with_content (collection w) ->
      forall d, In d matching <-> In d (collection w) /\ has_content_and_keywords d)
  /\ (exists left_out,
        Permutation matching (latest ++ left_out)
        /\ forall d x, In d latest -> In x left_out -> not_older d x)
  /\ StronglySorted not_older latest
  /\ length latest = Nat.min 10 (length matching)
  /\ (length (collection w) = 15%nat ->
      (forall d, In d (collection w) -> has_content_and_keywords d) ->
      NoDup (map published_date (collection w)) ->
      length latest = 10%nat
      /\ StronglySorted newer latest
      /\ (forall d, In d latest -> In d (collection w))
      /\ (forall d x, In d latest -> In x (collection w) -> ~ In x latest ->
            newer d x)).
Proof.
  intros matching latest.
  destruct (find_latest_newest (collection w)) as (Hperm & Hsorted & Hlen & Hnewest).
  fold matching latest in Hperm, Hsorted, Hlen, Hnewest.
  set (left_out := drop 10 (sort_desc matching)) in *.
  split; [reflexivity|].
  split.
  { intros d. unfold matching. rewrite filter_In, digest_filter_spec. tauto. }
  split.
  { intros Hinv d. unfold matching. rewrite filter_In. split.
    - intros [Hin Hf]. split; [exact Hin|].
      apply digest_filter_complete; [|exact Hf].
      rewrite Forall_forall in Hinv. apply Hinv, list_elem_of_In, Hin.
    - intros [Hin Hc]. split; [exact Hin|].
      apply has_content_and_keywords_filter, Hc. }
  split; [exists left_out; split; assumption|].
  split; [exact Hsorted|].
  split; [exact Hlen|].
  intros Hsize Hall Hdistinct.
  assert (Hm : matching = collection w) by (apply filter_all, Hall).
  rewrite Hm in Hperm, Hlen.
  assert (Hnd : NoDup (map published_date (latest ++ left_out))).
  { rewrite <- (Permutation_map published_date Hperm). exact Hdistinct. }
  rewrite map_app in Hnd. apply NoDup_app in Hnd as (Hnd1 & Hcross & _).
  split; [rewrite Hlen, Hsize; reflexivity|].
  split; [apply sorted_distinct_newer; assumption|].
  split.
  { intros d Hd. eapply Permutation_in; [symmetry; exact Hperm|].
    apply in_or_app. left; exact Hd. }
  intros d x Hd Hx Hout.
  apply (Permutation_in _ Hperm) in Hx.
  apply in_app_or in Hx as [Hx|Hx]; [contradiction|].
  specialize (Hnewest d x Hd Hx). unfold not_older, newer in *.
  assert (published_date d <> published_date x); [|lia].
  intros Heq.
  apply (Hcross (published_date d)).
  - apply list_elem_of_In, in_map, Hd.
  - rewrite Heq. apply list_elem_of_In, in_map, Hx.
Qed.

Lemma fortnight_complete (d : Document) :
  In d fortnight -> has_content_and_keywords d.
Proof.
  intros Hd. unfold fortnight in Hd. apply in_map_iff in Hd as (day & <- & _).
  split; [discriminate|]. exists "ai", [" startups"]. reflexivity.
Qed.

Lemma fortnight_distinct : NoDup (map published_date fortnight).
Proof.
  apply NoDup_ListNoDup.
  repeat (constructor; [cbn; intros H; repeat destruct H as [H|H]; try discriminate H; exact H|]).
  constructor.
Qed.

Lemma get_latest_news_digest_witness :
  let latest := find_latest (collection fortnight_world) in
  length latest = 10%nat
  /\ StronglySorted newer latest
  /\ (forall d, In d latest -> In d fortnight)
  /\ (forall d x, In d latest -> In x fortnight -> ~ In x latest -> newer d x).
Proof.
  destruct (get_latest_news_digest fortnight_world) as (_ & _ & _ & _ & _ & _ & H).
  apply H.
  - reflexivity.
  - exact fortnight_complete.
  - exact fortnight_distinct.
Defined.

Example fortnight_digest :
  map published_date (find_latest fortnight)
  = map (Z.mul 86400) [15; 14; 13; 12; 11; 10; 9; 8; 7; 6].
Proof. reflexivity. Qed.

(** *** The attempt loop in general *)

Lemma seqZ_S (i : Z) (j : nat) :
  seqZ i (Z.of_nat (S j)) = i :: seqZ (i + 1) (Z.of_nat j).
Proof.
  rewrite seqZ_cons by lia. f_equal. f_equal; lia.
Qed.

(** Over the attempts [i, i+1, ..., retry_count - 1] the loop opens
    [opened] sessions, all but the last refused, sleeps [retry_delay]
    between two sessions, and ends in one of three ways: the last
    session went through ([True], one delivery), all [j] were refused
    ([False]), or there was no attempt at all ([None]). *)
Lemma send_attempts_seqZ (recipient html_content : string)
    (retry_count retry_delay : Z) (j : nat) :
  forall (i : Z) (w : World),
    i + Z.of_nat j = retry_count ->
    let run := send_attempts recipient html_content retry_count retry_delay
                 (seqZ i (Z.of_nat j)) w in
    exists opened : nat,
      (opened <= j)%nat
      /\ smtp_sessions (snd run) = (smtp_sessions w + opened)%nat
      /\ slept (snd run) = slept w ++ replicate (opened - 1) retry_delay
      /\ smtp (snd run) = smtp w
      /\ environ (snd run) = environ w
      /\ collection (snd run) = collection w
      /\ (forall t, (S t < opened)%nat ->
            smtp w (smtp_sessions w + t)%nat recipient = false)
      /\ ((fst run = Some true /\ (1 <= opened)%nat
           /\ smtp w (smtp_sessions w + (opened - 1))%nat recipient = true
           /\ outbox (snd run) = outbox w ++ [(recipient, html_content)])
          \/ (fst run = Some false /\ opened = j /\ (1 <= j)%nat
              /\ smtp w (smtp_sessions w + (opened - 1))%nat recipient = false
              /\ outbox (snd run) = outbox w)
          \/ (fst run = None /\ j = 0%nat /\ opened = 0%nat
              /\ outbox (snd run) = outbox w)).
Proof.
  induction j as [|j IH]; intros i w Hi; cbn zeta.
  - change (seqZ i (Z.of_nat 0)) with (@nil Z). cbn [send_attempts fst snd].
    exists 0%nat. rewrite Nat.add_0_r, app_nil_r.
    repeat split; try lia. right. right. repeat split.
  - rewrite seqZ_S.
    destruct (smtp w (smtp_sessions w) recipient) eqn:Hok.
    + rewrite send_attempts_sent by exact Hok.
      cbn [fst snd smtp_session smtp smtp_sessions slept outbox environ collection].
      rewrite Hok. exists 1%nat. rewrite app_nil_r.
      repeat split; try lia.
      left. split; [reflexivity|]. split; [lia|]. split; [|reflexivity].
      replace (smtp_sessions w + (1 - 1))%nat with (smtp_sessions w) by lia.
      exact Hok.
    + destruct (Z.lt_ge_cases i (retry_count - 1)) as [Hlt|Hge].
      * rewrite send_attempts_again by assumption.
        set (w2 := sleep retry_delay (snd (smtp_session recipient html_content w))).
        destruct (IH (i + 1) w2 ltac:(lia))
          as (opened & Hle & Hn & Hslept & Hsmtp & Henv & Hcoll & Hfail & Hend).
        assert (Hopened : (1 <= opened)%nat).
        { destruct Hend as [(_ & H & _)|[(_ & -> & H & _)|(_ & H & _)]]; lia. }
        assert (Hw2 : smtp_sessions w2 = S (smtp_sessions w)
                      /\ slept w2 = slept w ++ [retry_delay]
                      /\ smtp w2 = smtp w /\ environ w2 = environ w
                      /\ collection w2 = collection w /\ outbox w2 = outbox w).
        { subst w2.
          cbn [sleep smtp_session snd smtp_sessions slept smtp environ collection outbox].
          rewrite Hok. repeat split. }
        destruct Hw2 as (Hn2 & Hs2 & Hsm2 & He2 & Hc2 & Ho2).
        rewrite Hn2, Hs2, Hsm2, He2, Hc2, Ho2 in *.
        exists (S opened).
        assert (Hshift : forall t, (S (smtp_sessions w) + t = smtp_sessions w + S t)%nat)
          by (intros; lia).
        split; [lia|]. split; [rewrite Hn; lia|].
        split.
        { rewrite Hslept, <- app_assoc. f_equal.
          replace (S opened - 1)%nat with (S (opened - 1)) by lia.
          reflexivity. }
        split; [exact Hsmtp|]. split; [exact Henv|]. split; [exact Hcoll|].
        split.
        { intros [|t] Ht.
          - rewrite Nat.add_0_r. exact Hok.
          - rewrite <- Hshift. apply Hfail. lia. }
        replace (smtp_sessions w + (S opened - 1))%nat
          with (S (smtp_sessions w) + (opened - 1))%nat by lia.
        destruct Hend as [(Hr & _ & Hlast & Hout)|[(Hr & Hj & _ & Hlast & Hout)|(_ & H & _)]];
          [left|right; left|lia]; repeat split; auto; lia.
      * rewrite send_attempts_given_up by (try exact Hok; lia).
        cbn [fst snd smtp_session smtp smtp_sessions slept outbox environ collection].
        rewrite Hok. exists 1%nat. rewrite app_nil_r.
        repeat split; try lia.
        right. left. split; [reflexivity|]. split; [lia|]. split; [lia|].
        split; [|reflexivity].
        replace (smtp_sessions w + (1 - 1))%nat with (smtp_sessions w) by lia.
        exact Hok.
Qed.

Lemma py_range_to_nat (retry_count : Z) :
  0 <= retry_count -> py_range retry_count = seqZ 0 (Z.of_nat (Z.to_nat retry_count)).
Proof. intros H. unfold py_range. rewrite Z2Nat.id by exact H. reflexivity. Qed.

(** X1.  When the next [retry_count] sessions are all refused
    ([retry_count >= 1]), [send_single_email] returns [False] after
    exactly [retry_count] sessions and [retry_count - 1] sleeps of
    [retry_delay]; nothing is delivered. *)
Theorem send_single_email_all_refused
    (sender_email sender_password recipient html_content : string)
    (retry_count retry_delay : Z) (w : World) :
  1 <= retry_count ->
  (forall t, (t < Z.to_nat retry_count)%nat ->
     smtp w (smtp_sessions w + t)%nat recipient = false) ->
  let run := send_single_email sender_email sender_password recipient
               html_content retry_count retry_delay w in
  fst run = Some false
  /\ smtp_sessions (snd run) = (smtp_sessions w + Z.to_nat retry_count)%nat
  /\ slept (snd run) = slept w ++ replicate (Z.to_nat retry_count - 1) retry_delay
  /\ outbox (snd run) = outbox w.
Proof.
  intros Hpos Hall run. subst run. unfold send_single_email.
  rewrite py_range_to_nat by lia.
  destruct (send_attempts_seqZ recipient html_content retry_count retry_delay
              (Z.to_nat retry_count) 0 w ltac:(lia))
    as (opened & Hle & Hn & Hslept & _ & _ & _ & Hfail & Hend).
  destruct Hend as [(_ & Hop & Hlast & _)|[(Hr & -> & _ & _ & Hout)|(_ & H & _)]].
  - rewrite Hall in Hlast by lia. discriminate Hlast.
  - auto.
  - lia.
Qed.

Lemma send_single_email_all_refused_witness :
  let run := send_single_email "me@163.com" "secret" "you@example.com"
               "<html></html>" 2 5 flaky_world in
  fst run = Some false
  /\ smtp_sessions (snd run) = (smtp_sessions flaky_world + Z.to_nat 2)%nat
  /\ slept (snd run) = slept flaky_world ++ replicate (Z.to_nat 2 - 1) 5
  /\ outbox (snd run) = outbox flaky_world.
Proof.
  apply (send_single_email_all_refused "me@163.com" "secret" "you@example.com"
           "<html></html>" 2 5 flaky_world).
  - lia.
  - intros [|[|t]] Ht; [reflexivity | reflexivity | cbn in Ht; lia].
Defined.

(** X2.  When the first session that goes through is the [k]-th from
    now ([k < retry_count], the [k] before it refused),
    [send_single_email] returns [True] after [k + 1] sessions and [k]
    sleeps of [retry_delay], and the message is delivered once. *)
Theorem send_single_email_first_through
    (sender_email sender_password recipient html_content : string)
    (retry_count retry_delay : Z) (k : nat) (w : World) :
  Z.of_nat k < retry_count ->
  (forall t, (t < k)%nat -> smtp w (smtp_sessions w + t)%nat recipient = false) ->
  smtp w (smtp_sessions w + k)%nat recipient = true ->
  let run := send_single_email sender_email sender_password recipient
               html_content retry_count retry_delay w in
  fst run = Some true
  /\ smtp_sessions (snd run) = (smtp_sessions w + S k)%nat
  /\ slept (snd run) = slept w ++ replicate k retry_delay
  /\ outbox (snd run) = outbox w ++ [(recipient, html_content)].
Proof.
  intros Hk Hbefore Hthrough run. subst run. unfold send_single_email.
  rewrite py_range_to_nat by lia.
  destruct (send_attempts_seqZ recipient html_content retry_count retry_delay
              (Z.to_nat retry_count) 0 w ltac:(lia))
    as (opened & Hle & Hn & Hslept & _ & _ & _ & Hfail & Hend).
  destruct Hend as [(Hr & Hop & Hlast & Hout)|[(_ & -> & _ & Hlast & _)|(_ & H & _)]].
  - assert (opened = S k).
    { destruct (Nat.lt_trichotomy (opened - 1) k) as [Hlt|[Heq|Hgt]].
      - rewrite Hbefore in Hlast by exact Hlt. discriminate Hlast.
      - lia.
      - rewrite Hfail in Hthrough by lia. discriminate Hthrough. }
    subst opened. replace (S k - 1)%nat with k in Hslept by lia. auto.
  - destruct (Nat.lt_trichotomy (Z.to_nat retry_count - 1) k) as [Hlt|[Heq|Hgt]].
    + lia.
    + rewrite Heq in Hlast. congruence.
    + rewrite Hfail in Hthrough by lia. discriminate Hthrough.
  - lia.
Qed.

Lemma send_single_email_first_through_witness :
  let run := send_single_email "me@163.com" "secret" "you@example.com"
               "<html></html>" 5 7 flaky_world in
  fst run = Some true
  /\ smtp_sessions (snd run) = (smtp_sessions flaky_world + 3)%nat
  /\ slept (snd run) = slept flaky_world ++ replicate 2 7
  /\ outbox (snd run) = outbox flaky_world ++ [("you@example.com", "<html></html>")].
Proof.
  apply (send_single_email_first_through "me@163.com" "secret" "you@example.com"
           "<html></html>" 5 7 2 flaky_world).
  - lia.
  - intros [|[|t]] Ht; [reflexivity | reflexivity | lia].
  - reflexivity.
Defined.

(** X3.  Whatever the transport does, [send_single_email] opens at most
    [retry_count] sessions, one after the other; it sleeps
    [retry_delay] once between two sessions and never after the last;
    every session but the last one opened did not go through; it
    returns [None] exactly when [retry_count <= 0], and otherwise
    [True] or [False] as the last session opened went through or
    not. *)
Theorem send_single_email_bounded
    (sender_email sender_password recipient html_content : string)
    (retry_count retry_delay : Z) (w : World) :
  let run := send_single_email sender_email sender_password recipient
               html_content retry_count retry_delay w in
  exists opened : nat,
    (opened <= Z.to_nat retry_count)%nat
    /\ smtp_sessions (snd run) = (smtp_sessions w + opened)%nat
    /\ slept (snd run) = slept w ++ replicate (opened - 1) retry_delay
    /\ (forall t, (S t < opened)%nat ->
          smtp w (smtp_sessions w + t)%nat recipient = false)
    /\ (fst run = None <-> retry_count <= 0)
    /\ (0 < retry_count ->
          (1 <= opened)%nat
          /\ fst run = Some (smtp w (smtp_sessions w + (opened - 1))%nat recipient)
          /\ (fst run = Some false -> opened = Z.to_nat retry_count)).
Proof.
  cbn zeta. unfold send_single_email.
  destruct (Z.le_gt_cases retry_count 0) as [Hneg|Hpos].
  - unfold py_range. rewrite seqZ_nil by exact Hneg.
    cbn [send_attempts fst snd].
    exists 0%nat. rewrite Nat.add_0_r, app_nil_r.
    split; [lia|]. split; [reflexivity|]. split; [reflexivity|].
    split; [intros t Ht; lia|]. split; [tauto | lia].
  - rewrite py_range_to_nat by lia.
    destruct (send_attempts_seqZ recipient html_content retry_count retry_delay
                (Z.to_nat retry_count) 0 w ltac:(lia))
      as (opened & Hle & Hn & Hslept & _ & _ & _ & Hfail & Hend).
    exists opened.
    split; [exact Hle|]. split; [exact Hn|]. split; [exact Hslept|].
    split; [exact Hfail|].
    destruct Hend as [(Hr & Hop & Hlast & _)|[(Hr & Hj & Hone & Hlast & _)|(_ & H & _)]];
      [| |lia]; rewrite Hr, Hlast.
    + split; [split; [discriminate | lia]|].
      intros _. split; [exact Hop|]. split; [reflexivity | discriminate].
    + split; [split; [discriminate | lia]|].
      intros _. split; [lia|]. split; [reflexivity | intros _; exact Hj].
Qed.

(** *** What [send_email] leaves behind *)

Lemma send_loop_effects (sender_email sender_password html_content : string)
    (recipients : list string) :
  forall (acc : nat * list string) (w : World),
    let fates := deliveries (smtp w) (smtp_sessions w) recipients in
    let run := send_loop sender_email sender_password html_content
                 recipients acc w in
    slept (snd run) = slept w ++ replicate (length recipients) 2
    /\ outbox (snd run)
       = outbox w ++ map (fun recipient => (recipient, html_content)) (delivered fates)
    /\ collection (snd run) = collection w.
Proof.
  induction recipients as [|recipient rest IH]; intros acc w; cbn zeta.
  - cbn. rewrite !app_nil_r. auto.
  - cbn [send_loop]. rewrite send_single_email_default.
    specialize (IH (tally (Some (smtp (sleep 2 w) (smtp_sessions (sleep 2 w)) recipient))
                      recipient acc)
                   (snd (smtp_session recipient html_content (sleep 2 w)))).
    cbn zeta in IH. destruct IH as (Hslept & Hout & Hcoll).
    cbn [deliveries]. rewrite filter_snd_true_cons.
    cbn [smtp_session sleep snd fst smtp smtp_sessions slept outbox collection] in *.
    rewrite Hslept, Hout, Hcoll.
    repeat split.
    + rewrite <- app_assoc. reflexivity.
    + destruct (smtp w (smtp_sessions w) recipient); cbn [map];
        [rewrite <- app_assoc|]; reflexivity.
Qed.

Lemma deliveries_split (transport : nat -> string -> bool) (recipients : list string) :
  forall n : nat,
    (length (delivered (deliveries transport n recipients))
     + length (undelivered (deliveries transport n recipients)))%nat
    = length recipients
    /\ (forall recipient,
          In recipient (undelivered (deliveries transport n recipients)) ->
          In recipient recipients).
Proof.
  induction recipients as [|recipient rest IH]; intros n; [split; [reflexivity|intros ? []]|].
  cbn [deliveries]. rewrite filter_snd_true_cons, undelivered_cons.
  destruct (IH (S n)) as (Hlen & Hin).
  cbn [fst snd]. destruct (transport n recipient); cbn [length In].
  - split; [lia | intros r Hr; right; apply Hin, Hr].
  - split; [lia | intros r [<-|Hr]; [left; reflexivity | right; apply Hin, Hr]].
Qed.

(** X4.  With both credentials configured, [send_email] opens one
    session per recipient, in order, sleeping 2 seconds before each and
    never in between; the outbox gains the message once for every
    recipient reached.  When it returns, the count is at least 1, the
    count and the failed list add up to the recipients, and every
    failed address is one of the recipients; on the empty list it
    raises. *)
Theorem send_email_accounting
    (html_content : string) (recipients : list string) (w : World) :
  credentials_configured w = true ->
  let fates := deliveries (smtp w) (smtp_sessions w) recipients in
  let run := send_email html_content recipients w in
  smtp_sessions (snd run) = (smtp_sessions w + length recipients)%nat
  /\ slept (snd run) = slept w ++ replicate (length recipients) 2
  /\ outbox (snd run)
     = outbox w ++ map (fun recipient => (recipient, html_content)) (delivered fates)
  /\ collection (snd run) = collection w
  /\ (forall success_count failed_recipients,
        fst run = Ret (success_count, failed_recipients) ->
        (1 <= success_count)%nat
        /\ (success_count + length failed_recipients)%nat = length recipients
        /\ (forall recipient, In recipient failed_recipients -> In recipient recipients))
  /\ (recipients = [] ->
        fst run = Raise (PlainException "All email sending attempts failed")).
Proof.
  intros Hcred fates run. subst run. unfold send_email.
  unfold credentials_configured in Hcred. rewrite Hcred. cbn [negb].
  pose proof (send_loop_deliveries
                (default "" (environ w !! "EMAIL_USER_WY"))
                (default "" (environ w !! "EMAIL_PASSWORD_WY"))
                html_content recipients (0%nat, []) w) as Hd.
  pose proof (send_loop_effects
                (default "" (environ w !! "EMAIL_USER_WY"))
                (default "" (environ w !! "EMAIL_PASSWORD_WY"))
                html_content recipients (0%nat, []) w) as He.
  cbn zeta in Hd, He. fold fates in Hd, He.
  destruct Hd as (Hacc & _ & Hn & _). destruct He as (Hslept & Hout & Hcoll).
  destruct (send_loop _ _ html_content recipients (0%nat, []) w)
    as [[success_count failed_recipients] w'] eqn:Hrun.
  cbn [fst snd] in *. injection Hacc as Hcount Hfailed.
  try rewrite app_nil_l in Hfailed. try rewrite Nat.add_0_l in Hcount.
  destruct (deliveries_split (smtp w) recipients (smtp_sessions w)) as (Hsplit & Hsub).
  fold fates in Hsplit, Hsub.
  assert (Hworld : forall r : result (nat * list string),
             smtp_sessions (snd (r, w')) = (smtp_sessions w + length recipients)%nat
             /\ slept (snd (r, w')) = slept w ++ replicate (length recipients) 2
             /\ outbox (snd (r, w'))
                = outbox w ++ map (fun recipient => (recipient, html_content))
                                (delivered fates)
             /\ collection (snd (r, w')) = collection w).
  { intros r. cbn [snd]. auto. }
  destruct (Nat.eqb success_count 0) eqn:Hzero.
  - apply Nat.eqb_eq in Hzero.
    destruct (Hworld (Raise (PlainException "All email sending attempts failed")))
      as (H1 & H2 & H3 & H4).
    split; [exact H1|]. split; [exact H2|]. split; [exact H3|]. split; [exact H4|].
    split; [intros n failed Hret; discriminate Hret | reflexivity].
  - apply Nat.eqb_neq in Hzero.
    destruct (Hworld (Ret (success_count, failed_recipients))) as (H1 & H2 & H3 & H4).
    split; [exact H1|]. split; [exact H2|]. split; [exact H3|]. split; [exact H4|].
    split.
    + intros n failed Hret. cbn [fst] in Hret. injection Hret as <- <-.
      subst success_count failed_recipients.
      split; [lia|]. split; [exact Hsplit | exact Hsub].
    + intros ->. cbn in Hcount. congruence.
Qed.

Lemma send_email_accounting_witness :
  let recipients := ["you@example.com"; ""; "them@example.com"] in
  let run := send_email "<html></html>" recipients office_world in
  fst run = Ret (2%nat, [""])
  /\ slept (snd run) = [2; 2; 2]
  /\ outbox (snd run)
     = [("you@example.com", "<html></html>"); ("them@example.com", "<html></html>")].
Proof.
  destruct (send_email_accounting "<html></html>"
              ["you@example.com"; ""; "them@example.com"] office_world eq_refl)
    as (_ & Hslept & Hout & _).
  split; [reflexivity|]. split; [exact Hslept | exact Hout].
Defined.

(** *** [find], [rfind] and slices *)

Lemma append_cons (c : ascii) (s t : string) :
  (String c s +:+ t)%string = String c (s +:+ t)%string.
Proof. reflexivity. Qed.

Lemma find_from_absent (c : ascii) (s : string) :
  forall i : Z, contains_char c s = false -> find_from c s i = -1.
Proof.
  induction s as [|d s IH]; intros i; cbn [contains_char find_from];
    [reflexivity|].
  destruct (Ascii.eqb d c); cbn [orb]; [discriminate | apply IH].
Qed.

Lemma find_from_present (c : ascii) (s : string) :
  forall i : Z, contains_char c s = true -> i <= find_from c s i.
Proof.
  induction s as [|d s IH]; intros i; cbn [contains_char find_from];
    [discriminate|].
  destruct (Ascii.eqb d c); cbn [orb]; [lia|].
  intros H. specialize (IH (i + 1) H). lia.
Qed.

Lemma find_from_first (c : ascii) (pre rest : string) :
  forall i : Z,
    contains_char c pre = false ->
    find_from c (pre +:+ String c rest) i = i + Z.of_nat (String.length pre).
Proof.
  induction pre as [|d pre IH]; intros i Hpre.
  - change (EmptyString +:+ String c rest)%string with (String c rest).
    cbn [find_from String.length]. rewrite Ascii.eqb_refl. lia.
  - rewrite append_cons. cbn [find_from String.length contains_char] in *.
    apply orb_false_iff in Hpre as [Hd Hpre]. rewrite Hd, IH by exact Hpre. lia.
Qed.

Lemma rfind_from_absent (c : ascii) (s : string) :
  forall i last : Z, contains_char c s = false -> rfind_from c s i last = last.
Proof.
  induction s as [|d s IH]; intros i last; cbn [contains_char rfind_from];
    [reflexivity|].
  destruct (Ascii.eqb d c); cbn [orb]; [discriminate | apply IH].
Qed.

Lemma rfind_from_present (c : ascii) (s : string) :
  forall i last : Z,
    contains_char c s = true -> 0 <= i -> 0 <= rfind_from c s i last.
Proof.
  induction s as [|d s IH]; intros i last; cbn [contains_char rfind_from];
    [discriminate|].
  intros H Hi. destruct (Ascii.eqb d c); cbn [orb] in H.
  - destruct (contains_char c s) eqn:Hs.
    + apply IH; [reflexivity | lia].
    + rewrite rfind_from_absent by exact Hs. exact Hi.
  - apply IH; [exact H | lia].
Qed.

Lemma rfind_from_app (c : ascii) (pre t : string) :
  forall i last : Z,
    rfind_from c (pre +:+ t) i last
    = rfind_from c t (i + Z.of_nat (String.length pre)) (rfind_from c pre i last).
Proof.
  induction pre as [|d pre IH]; intros i last.
  - change (EmptyString +:+ t)%string with t. cbn [rfind_from String.length].
    f_equal. lia.
  - rewrite append_cons. cbn [rfind_from String.length]. rewrite IH.
    f_equal. lia.
Qed.

Lemma rfind_from_last (c : ascii) (pre post : string) :
  forall i last : Z,
    contains_char c post = false ->
    rfind_from c (pre +:+ String c post) i last = i + Z.of_nat (String.length pre).
Proof.
  intros i last Hpost. rewrite rfind_from_app. cbn [rfind_from].
  rewrite Ascii.eqb_refl. apply rfind_from_absent, Hpost.
Qed.

Lemma substring_skip (pre t : string) (m : nat) :
  substring (String.length pre) m (pre +:+ t) = substring 0 m t.
Proof.
  induction pre as [|d pre IH]; [reflexivity|].
  rewrite append_cons. cbn [String.length substring]. exact IH.
Qed.

Lemma substring_prefix (mid post : string) :
  substring 0 (String.length mid) (mid +:+ post) = mid.
Proof.
  induction mid as [|d mid IH].
  - cbn [String.length]. destruct (EmptyString +:+ post)%string; reflexivity.
  - rewrite append_cons. cbn [String.length substring]. rewrite IH. reflexivity.
Qed.

Lemma length_append (s t : string) :
  String.length (s +:+ t) = (String.length s + String.length t)%nat.
Proof.
  induction s as [|d s IH]; [reflexivity|].
  rewrite append_cons. cbn [String.length]. rewrite IH. reflexivity.
Qed.

Lemma py_slice_middle (pre mid post : string) :
  py_slice (pre +:+ (mid +:+ post))
    (Z.of_nat (String.length pre))
    (Z.of_nat (String.length pre) + Z.of_nat (String.length mid))
  = mid.
Proof.
  unfold py_slice. rewrite Nat2Z.id.
  replace (Z.to_nat (Z.of_nat (String.length pre) + Z.of_nat (String.length mid)
                     - Z.of_nat (String.length pre)))
    with (String.length mid) by lia.
  rewrite substring_skip. apply substring_prefix.
Qed.

Section Translation.

Variable json_dumps : list NewsItem -> string.
Variable json_loads : string -> option (list NewsItem).

(** X5.  [translate2ZH] changes nothing in the world; an error of the
    translation API is raised as it is; an answer without an opening
    bracket, or without a closing one, raises [ValueError]; otherwise
    the call returns what [json.loads] makes of the slice, or raises
    [JSONDecodeError]. *)
Theorem translate2ZH_outcomes (data : list NewsItem) (w : World) :
  let request := (translation_prompt +:+ json_dumps data)%string in
  let run := translate2ZH json_dumps json_loads data w in
  snd run = w
  /\ (forall e, llm w request = Raise e -> fst run = Raise e)
  /\ (forall answer, llm w request = Ret answer ->
        contains_char "[" answer = false \/ contains_char "]" answer = false ->
        fst run = Raise (ValueError "No JSON array found in response"))
  /\ (forall answer, llm w request = Ret answer ->
        contains_char "[" answer = true -> contains_char "]" answer = true ->
        fst run
        = match json_loads (py_slice answer (py_find "[" answer)
                              (py_rfind "]" answer + 1)) with
          | Some translated => Ret translated
          | None => Raise JSONDecodeError
          end).
Proof.
  cbn zeta. unfold translate2ZH.
  destruct (llm w (translation_prompt +:+ json_dumps data)) as [answer|e].
  - split.
    { destruct ((0 <=? py_find "[" answer) && (0 <? py_rfind "]" answer + 1));
        [destruct (json_loads _)|]; reflexivity. }
    split; [discriminate|].
    split.
    + intros ? [= <-] [Hopen|Hclose].
      * unfold py_find. rewrite find_from_absent by exact Hopen. reflexivity.
      * unfold py_rfind. rewrite rfind_from_absent by exact Hclose.
        rewrite andb_false_r. reflexivity.
    + intros ? [= <-] Hopen Hclose.
      pose proof (find_from_present "[" answer 0 Hopen) as H1.
      pose proof (rfind_from_present "]" answer 0 (-1) Hclose (Z.le_refl 0)) as H2.
      fold (py_find "[" answer) in H1. fold (py_rfind "]" answer) in H2.
      apply Z.leb_le in H1. rewrite H1.
      assert (H3 : (0 <? py_rfind "]" answer + 1) = true) by (apply Z.ltb_lt; lia).
      rewrite H3. cbn [andb].
      destruct (json_loads _); reflexivity.
  - repeat split; try discriminate. intros ? [= <-]. reflexivity.
Qed.

(** X6.  When the answer of the translation API is a bracketed array
    wrapped in other text (no opening bracket before it, no closing
    bracket after it), [translate2ZH] parses exactly the array, from
    its opening to its closing bracket. *)
Theorem translate2ZH_strips_wrapping
    (data : list NewsItem) (w : World) (before body after : string) :
  llm w (translation_prompt +:+ json_dumps data)%string
  = Ret (before +:+ (String "[" (body +:+ String "]" EmptyString) +:+ after))%string ->
  contains_char "[" before = false ->
  contains_char "]" after = false ->
  fst (translate2ZH json_dumps json_loads data w)
  = match json_loads (String "[" (body +:+ String "]" EmptyString)) with
    | Some translated => Ret translated
    | None => Raise JSONDecodeError
    end.
Proof.
  intros Hanswer Hbefore Hafter. unfold translate2ZH. rewrite Hanswer.
  set (array := String "[" (body +:+ String "]" EmptyString)).
  assert (Hstart : py_find "[" (before +:+ (array +:+ after))
                   = Z.of_nat (String.length before)).
  { unfold py_find, array. rewrite append_cons.
    rewrite find_from_first by exact Hbefore. lia. }
  assert (Hstop : py_rfind "]" (before +:+ (array +:+ after)) + 1
                  = Z.of_nat (String.length before) + Z.of_nat (String.length array)).
  { unfold py_rfind, array.
    replace (before +:+ (String "[" (body +:+ String "]" EmptyString) +:+ after))%string
      with ((before +:+ String "[" body) +:+ String "]" after)%string.
    - rewrite rfind_from_last by exact Hafter.
      rewrite length_append. cbn [String.length]. rewrite length_append.
      cbn [String.length]. lia.
    - rewrite append_cons.
      clear. induction before as [|d before IH].
      + change (EmptyString +:+ String "[" body)%string with (String "[" body).
        change (EmptyString +:+ String "[" ((body +:+ String "]" EmptyString) +:+ after))%string
          with (String "[" ((body +:+ String "]" EmptyString) +:+ after))%string.
        rewrite append_cons. f_equal.
        induction body as [|b body IHb]; [reflexivity|].
        rewrite !append_cons. f_equal. exact IHb.
      + rewrite !append_cons. f_equal. exact IH. }
  rewrite Hstart, Hstop, py_slice_middle.
  assert (H1 : (0 <=? Z.of_nat (String.length before)) = true)
    by (apply Z.leb_le; lia).
  assert (H2 : (0 <? Z.of_nat (String.length before) + Z.of_nat (String.length array))
               = true).
  { apply Z.ltb_lt. unfold array. cbn [String.length]. lia. }
  rewrite H1, H2. cbn [andb].
  destruct (json_loads array); reflexivity.
Qed.

End Translation.

Lemma translate2ZH_strips_wrapping_witness :
  fst (translate2ZH (fun _ => "[]") (fun _ => Some []) [] chatty_world) = Ret [].
Proof.
  apply (translate2ZH_strips_wrapping (fun _ => "[]") (fun _ => Some []) []
           chatty_world "Here is the translation: " "{...}" " I hope it helps.");
    reflexivity.
Defined.

(** *** The digest builder as a whole *)

Lemma translate2ZH_world
    (json_dumps : list NewsItem -> string)
    (json_loads : string -> option (list NewsItem))
    (data : list NewsItem) (w : World) :
  snd (translate2ZH json_dumps json_loads data w) = w.
Proof.
  unfold translate2ZH.
  destruct (llm w _) as [answer|e]; [|reflexivity].
  destruct ((0 <=? py_find "[" answer) && (0 <? py_rfind "]" answer + 1));
    [destruct (json_loads _)|]; reflexivity.
Qed.

Lemma delivered_some (fates : list (string * bool)) :
  length (delivered fates) <> 0%nat -> Exists (fun fate => snd fate = true) fates.
Proof.
  induction fates as [|fate fates IH]; [intros H; contradiction H; reflexivity|].
  rewrite filter_snd_true_cons. destruct fate as [r [|]]; cbn [snd fst].
  - intros _. left. reflexivity.
  - intros H. right. apply IH, H.
Qed.

Lemma send_email_configured (html_content : string) (recipients : list string)
    (w : World) :
  credentials_configured w = true ->
  let fates := deliveries (smtp w) (smtp_sessions w) recipients in
  fst (send_email html_content recipients w)
  = (if Nat.eqb (length (delivered fates)) 0
     then Raise (PlainException "All email sending attempts failed")
     else Ret (length (delivered fates), undelivered fates))
  /\ outbox (snd (send_email html_content recipients w))
     = outbox w ++ map (fun recipient => (recipient, html_content)) (delivered fates).
Proof.
  intros Hcred fates. unfold send_email.
  unfold credentials_configured in Hcred. rewrite Hcred. cbn [negb].
  pose proof (send_loop_deliveries
                (default "" (environ w !! "EMAIL_USER_WY"))
                (default "" (environ w !! "EMAIL_PASSWORD_WY"))
                html_content recipients (0%nat, []) w) as Hd.
  pose proof (send_loop_effects
                (default "" (environ w !! "EMAIL_USER_WY"))
                (default "" (environ w !! "EMAIL_PASSWORD_WY"))
                html_content recipients (0%nat, []) w) as He.
  cbn zeta in Hd, He. fold fates in Hd, He.
  destruct Hd as (Hacc & _). destruct He as (_ & Hout & _).
  destruct (send_loop _ _ html_content recipients (0%nat, []) w)
    as [[success_count failed_recipients] w'] eqn:Hrun.
  cbn [fst snd] in *. injection Hacc as Hcount Hfailed.
  try rewrite app_nil_l in Hfailed. try rewrite Nat.add_0_l in Hcount.
  subst success_count failed_recipients.
  destruct (Nat.eqb (length (delivered fates)) 0); cbn [fst snd]; auto.
Qed.

Section Builder.

Variable json_dumps : list NewsItem -> string.
Variable json_loads : string -> option (list NewsItem).
Variable render_email : list NewsItem -> string.

(** The builder once it has recipients: what the translation, the
    rendering and [send_email] decide. *)
Lemma process_and_send_news_steps
    (self_recipients : list string) (recipients : option (list string))
    (w : World) :
  recipients_or recipients self_recipients <> [] ->
  process_and_send_news json_dumps json_loads render_email self_recipients
    recipients w
  = match fst (translate2ZH json_dumps json_loads
                 (get_latest_news_from_mongodb w) w) with
    | Raise e => (Raise e, w)
    | Ret translated =>
        match generate_email_html render_email translated with
        | Raise e => (Raise e, w)
        | Ret email_html =>
            match send_email email_html
                    (recipients_or recipients self_recipients) w with
            | (Raise e, w2) => (Raise e, w2)
            | (Ret _, w2) => (Ret true, w2)
            end
        end
    end.
Proof.
  intros Hto. unfold process_and_send_news.
  destruct (recipients_or recipients self_recipients) as [|r rs] eqn:Hrs;
    [contradiction Hto; reflexivity|].
  cbn [list_truthy negb].
  pose proof (translate2ZH_world json_dumps json_loads
                (get_latest_news_from_mongodb w) w) as Hw.
  destruct (translate2ZH json_dumps json_loads (get_latest_news_from_mongodb w) w)
    as [[translated|e] w1]; cbn [fst snd] in *; subst w1; reflexivity.
Qed.

(** C3, amended.  An empty recipient list given to
    [process_and_send_news] stands for the recipients the service was
    built with: the call is the call with those recipients given, and,
    the digest once translated and rendered and the credentials
    configured, the mail of the sessions that go through is addressed
    to them.  When the service has no recipients either, the call logs
    a warning and returns [False]: nothing is raised, no session is
    opened, nothing is sent, nothing is slept. *)
Theorem process_and_send_news_no_recipients
    (self_recipients : list string) (w : World) :
  let run := process_and_send_news json_dumps json_loads render_email
               self_recipients (Some []) w in
  process_and_send_news json_dumps json_loads render_email [] (Some []) w
  = (Ret false, w)
  /\ process_and_send_news json_dumps json_loads render_email [] None w
     = (Ret false, w)
  /\ run = process_and_send_news json_dumps json_loads render_email
             self_recipients None w
  /\ (forall other : list string,
        self_recipients <> [] ->
        run = process_and_send_news json_dumps json_loads render_email other
                (Some self_recipients) w)
  /\ (forall translated email_html,
        fst (translate2ZH json_dumps json_loads (get_latest_news_from_mongodb w) w)
        = Ret translated ->
        generate_email_html render_email translated = Ret email_html ->
        credentials_configured w = true ->
        outbox (snd run)
        = outbox w
          ++ map (fun recipient => (recipient, email_html))
               (delivered (deliveries (smtp w) (smtp_sessions w) self_recipients))
        /\ (fst run = Ret true <->
              Exists (fun fate => snd fate = true)
                (deliveries (smtp w) (smtp_sessions w) self_recipients))).
Proof.
  intros run.
  split; [reflexivity|]. split; [reflexivity|]. split; [reflexivity|].
  split.
  { intros other Hself. subst run.
    destruct self_recipients as [|r rs]; [contradiction Hself; reflexivity|].
    reflexivity. }
  intros translated email_html Htranslated Hrendered Hcred.
  destruct self_recipients as [|r rs].
  { subst run. cbn. rewrite app_nil_r. split; [reflexivity|].
    split; [discriminate | intros H; inversion H]. }
  subst run.
  rewrite process_and_send_news_steps by discriminate.
  rewrite Htranslated, Hrendered. cbn [recipients_or].
  destruct (send_email_configured email_html (r :: rs) w Hcred) as (Hres & Hout).
  destruct (send_email email_html (r :: rs) w) as [[ok|e] w2]; cbn [fst snd] in *.
  - split; [exact Hout|]. split; [|reflexivity].
    intros _.
    destruct (Nat.eqb (length (delivered (deliveries (smtp w) (smtp_sessions w)
                                            (r :: rs)))) 0) eqn:Hzero;
      [discriminate Hres|].
    apply Nat.eqb_neq in Hzero. apply delivered_some, Hzero.
  - split; [exact Hout|]. split; [discriminate|].
    intros Hex.
    destruct (Nat.eqb (length (delivered (deliveries (smtp w) (smtp_sessions w)
                                            (r :: rs)))) 0) eqn:Hzero;
      [|discriminate Hres].
    apply Nat.eqb_eq, delivered_nil_iff in Hzero.
    apply Exists_exists in Hex as (fate & Hin & Htrue).
    rewrite Forall_forall in Hzero. specialize (Hzero _ Hin). congruence.
Qed.

(** X7.  With at least one recipient in effect, [process_and_send_news]
    never returns [False].  A failed translation is raised and leaves
    the world untouched, and so does the rendering, which fails on a
    translated entry whose [key_words] is null: no session is opened,
    no mail sent.  After a successful translation and rendering: with
    the credentials configured it returns [True] exactly when at
    least one session goes through, the mail of the sessions that go
    through being the rendered digest; without the credentials it
    raises [ValueError] and sends nothing. *)
Theorem process_and_send_news_outcomes
    (self_recipients : list string) (recipients : option (list string))
    (w : World) :
  recipients_or recipients self_recipients <> [] ->
  let to := recipients_or recipients self_recipients in
  let translation :=
    fst (translate2ZH json_dumps json_loads (get_latest_news_from_mongodb w) w) in
  let fates := deliveries (smtp w) (smtp_sessions w) to in
  let run := process_and_send_news json_dumps json_loads render_email
               self_recipients recipients w in
  fst run <> Ret false
  /\ (forall e, translation = Raise e -> run = (Raise e, w))
  /\ (forall translated, translation = Ret translated ->
        Exists (fun article => item_key_words article = None) translated ->
        run = (Raise (TypeError "'NoneType' object is not subscriptable"), w))
  /\ (forall translated, translation = Ret translated ->
        Forall (fun article => item_key_words article <> None) translated ->
        credentials_configured w = true ->
        (fst run = Ret true <-> Exists (fun fate => snd fate = true) fates)
        /\ outbox (snd run)
           = outbox w
             ++ map (fun recipient => (recipient, render_email translated))
                  (delivered fates))
  /\ (forall translated, translation = Ret translated ->
        Forall (fun article => item_key_words article <> None) translated ->
        credentials_configured w = false ->
        run = (Raise (ValueError "Missing email configuration in environment variables"),
               w)).
Proof.
  intros Hto to translation fates run.
  subst run. rewrite process_and_send_news_steps by exact Hto.
  fold to translation.
  assert (Hrender : forall translated,
             Forall (fun article => item_key_words article <> None) translated ->
             generate_email_html render_email translated
             = Ret (render_email translated)).
  { intros translated Hall. unfold generate_email_html.
    replace (forallb has_key_words translated) with true; [reflexivity|].
    symmetry. apply forallb_forall. intros article Hin.
    rewrite Forall_forall in Hall. apply list_elem_of_In in Hin.
    specialize (Hall _ Hin). unfold has_key_words.
    destruct (item_key_words article); [reflexivity | contradiction Hall; reflexivity]. }
  assert (Hrefuse : forall translated,
             Exists (fun article => item_key_words article = None) translated ->
             generate_email_html render_email translated
             = Raise (TypeError "'NoneType' object is not subscriptable")).
  { intros translated Hex. unfold generate_email_html.
    replace (forallb has_key_words translated) with false; [reflexivity|].
    symmetry. apply not_true_is_false. intros Hall.
    apply Exists_exists in Hex as (article & Hin & Hnone).
    rewrite forallb_forall in Hall. apply list_elem_of_In in Hin.
    specialize (Hall _ Hin). unfold has_key_words in Hall.
    rewrite Hnone in Hall. discriminate Hall. }
  destruct translation as [translated|e] eqn:Htranslation.
  - split.
    { destruct (generate_email_html render_email translated) as [email_html|e];
        [|discriminate].
      destruct (send_email email_html to w) as [[ok|e] w2]; cbn [fst]; discriminate. }
    split; [discriminate|].
    split; [intros ? [= <-] Hex; rewrite (Hrefuse _ Hex); reflexivity|].
    split.
    + intros ? [= <-] Hall Hcred. rewrite (Hrender _ Hall).
      destruct (send_email_configured (render_email translated) to w Hcred)
        as (Hres & Hout).
      fold fates in Hres, Hout.
      destruct (send_email (render_email translated) to w) as [[ok|e] w2];
        cbn [fst snd] in *.
      * split; [|exact Hout]. split; [|reflexivity].
        intros _. destruct (Nat.eqb (length (delivered fates)) 0) eqn:Hzero;
          [discriminate Hres|].
        apply Nat.eqb_neq in Hzero. apply delivered_some, Hzero.
      * split; [|exact Hout]. split; [discriminate|].
        intros Hex. destruct (Nat.eqb (length (delivered fates)) 0) eqn:Hzero;
          [|discriminate Hres].
        apply Nat.eqb_eq, delivered_nil_iff in Hzero.
        apply Exists_exists in Hex as (fate & Hin & Htrue).
        rewrite Forall_forall in Hzero. specialize (Hzero _ Hin). congruence.
    + intros ? [= <-] Hall Hcred. rewrite (Hrender _ Hall). unfold send_email.
      unfold credentials_configured in Hcred. rewrite Hcred. reflexivity.
  - split; [discriminate|]. split; [intros ? [= <-]; reflexivity|].
    repeat split; discriminate.
Qed.

End Builder.

Lemma process_and_send_news_no_recipients_witness :
  let run := process_and_send_news (fun _ => "[]") (fun _ => Some [])
               (fun _ => "<html></html>") ["you@example.com"] (Some [])
               chatty_world in
  outbox (snd run) = [("you@example.com", "<html></html>")]
  /\ fst run = Ret true.
Proof.
  destruct (process_and_send_news_no_recipients (fun _ => "[]") (fun _ => Some [])
              (fun _ => "<html></html>") ["you@example.com"] chatty_world)
    as (_ & _ & _ & _ & H).
  destruct (H [] "<html></html>" eq_refl eq_refl eq_refl) as (Hout & Hiff).
  split; [exact Hout|]. apply Hiff. left. reflexivity.
Defined.

Lemma process_and_send_news_outcomes_witness :
  let run := process_and_send_news (fun _ => "[]") (fun _ => Some [])
               (fun _ => "<html></html>") ["you@example.com"] None chatty_world in
  fst run = Ret true
  /\ outbox (snd run) = [("you@example.com", "<html></html>")].
Proof.
  destruct (process_and_send_news_outcomes (fun _ => "[]") (fun _ => Some [])
              (fun _ => "<html></html>") ["you@example.com"] None chatty_world
              ltac:(discriminate)) as (_ & _ & _ & H & _).
  destruct (H [] eq_refl ltac:(constructor) eq_refl) as (Hiff & Hout).
  split; [|exact Hout].
  apply Hiff. left. reflexivity.
Defined.

End EmailServiceFacts.

(** ** ListPageExtractor.py and DetailPageExtractor.py *)

Module IngestFacts.

Import DetailPageExtractor ListPageExtractor IngestSamples.

(** C8.  [_format_news_document] given a detail record: a non-empty
    string [key_words] is stored as its pieces between commas, nothing
    trimmed (joining the pieces with commas gives the string back and no
    piece holds a comma; ["ai, startups, funding"] gives ["ai"],
    [" startups"], [" funding"]); a list is stored as it is; the empty
    string is stored as the empty list. *)
Theorem format_news_document_keywords
    (strptime : string -> option Z) (news_data : TechFinancingNews)
    (detail_title detail_summary : option string)
    (others : list DetailRecord) (w : Ingest) :
  let keywords_of key_words :=
    doc_keywords
      (_format_news_document strptime news_data
         (Some (mkDetailRecord detail_title detail_summary (Some key_words)
                  :: others)) w) in
  (forall c rest,
      keywords_of (KwStr (String c rest)) = Some (py_split "," (String c rest)))
  /\ (forall s,
        py_join "," (py_split "," s) = s
        /\ Forall (fun piece => contains_char "," piece = false) (py_split "," s))
  /\ keywords_of (KwStr "ai, startups, funding")
     = Some ["ai"; " startups"; " funding"]
  /\ (forall l, keywords_of (KwList l) = Some l)
  /\ keywords_of (KwStr "") = Some [].
Proof.
  intros keywords_of. repeat split.
  - apply split_acc_join.
  - apply split_acc_pieces. reflexivity.
Qed.

(** *** The crawl log *)

Lemma arun_log (url : string) (w : Ingest) :
  crawled (snd (arun url w)) = crawled w ++ [url]
  /\ news_collection (snd (arun url w)) = news_collection w
  /\ naps (snd (arun url w)) = naps w
  /\ crawler (snd (arun url w)) = crawler w
  /\ clock (snd (arun url w)) = clock w.
Proof. repeat split. Qed.

Section Backfill.

Variable strptime : string -> option Z.
Variable json_loads_detail : string -> option (list DetailRecord).

(** A call of the detail extractor on a non-empty url is one crawl of
    that url; it touches neither the store nor the clock. *)
Lemma extract_detail_content_log (url : string) (w : Ingest) :
  str_truthy url = true ->
  let run := extract_detail_content json_loads_detail url w in
  crawled (snd run) = crawled w ++ [url]
  /\ news_collection (snd run) = news_collection w
  /\ naps (snd run) = naps w.
Proof.
  intros Hurl. unfold extract_detail_content. rewrite Hurl. cbn [negb].
  destruct (arun url w) as [outcome w1] eqn:Harun.
  pose proof (arun_log url w) as Hlog. rewrite Harun in Hlog. cbn [snd] in Hlog.
  destruct Hlog as (Hc & Hn & Hs & _).
  destruct outcome as [e| |[extracted_content|]]; cbn zeta;
    try destruct (is_Exception e);
    try destruct (json_loads_detail extracted_content);
    cbn [snd]; auto.
Qed.

(** The retry loop, entered with fuel, starts with a crawl of the url
    and never writes to the store. *)
Lemma retry_extract_log (fuel : nat) (globals : list string) (url : string) :
  forall w : Ingest,
    str_truthy url = true ->
    let run := retry_extract json_loads_detail (S fuel) globals url w in
    (exists more, crawled (snd run) = crawled w ++ url :: more)
    /\ news_collection (snd run) = news_collection w.
Proof.
  induction fuel as [|fuel IH]; intros w Hurl; cbn zeta.
  - cbn [retry_extract].
    destruct (extract_detail_content_log url w Hurl) as (Hc & Hn & _).
    destruct (extract_detail_content json_loads_detail url w) as [[v|e] w1];
      cbn [snd] in *.
    + split; [exists []; exact Hc | exact Hn].
    + destruct (bound "litellm" globals), (is_RateLimitError e),
        (bound "time" globals); cbn [snd nap crawled news_collection];
        (split; [exists []; exact Hc | exact Hn]).
  - remember (S fuel) as fuel' eqn:Hfuel. cbn [retry_extract]. subst fuel'.
    destruct (extract_detail_content_log url w Hurl) as (Hc & Hn & _).
    destruct (extract_detail_content json_loads_detail url w) as [[v|e] w1];
      cbn [snd] in *.
    + split; [exists []; exact Hc | exact Hn].
    + destruct (bound "litellm" globals), (is_RateLimitError e),
        (bound "time" globals); cbn [snd];
        try (split; [exists []; exact Hc | exact Hn]).
      specialize (IH (nap 30 w1) Hurl). cbn zeta in IH.
      destruct IH as ((more & Hmore) & Hstore).
      cbn [nap crawled news_collection] in Hmore, Hstore.
      split.
      * exists (url :: more). rewrite Hmore, Hc, <- app_assoc. reflexivity.
      * rewrite Hstore. exact Hn.
Qed.

(** The backfill loop only ever extends the crawl log. *)
Lemma backfill_log (fuel : nat) (globals : list string)
    (news_data : list TechFinancingNews) :
  forall w : Ingest,
    exists more,
      crawled (snd (backfill strptime json_loads_detail fuel globals news_data w))
      = crawled w ++ more.
Proof.
  induction news_data as [|news_block rest IH]; intros w; cbn [backfill].
  - exists []. cbn. rewrite app_nil_r. reflexivity.
  - destruct (str_truthy (further_url news_block)) eqn:Hurl; cbn [negb];
      [|apply IH].
    destruct (complete (find_one (further_url news_block) (news_collection w)));
      [apply IH|].
    destruct fuel as [|fuel].
    + cbn [retry_extract snd]. exists []. rewrite app_nil_r. reflexivity.
    + destruct (retry_extract_log fuel globals (further_url news_block) w Hurl)
        as ((more & Hmore) & _).
      destruct (retry_extract json_loads_detail (S fuel) globals
                  (further_url news_block) w) as [[[[detail|]|e]|] w1];
        cbn [snd] in *.
      * match goal with
        | |- context [backfill _ _ _ _ rest ?w2] =>
            destruct (IH w2) as (more' & Hmore')
        end.
        rewrite Hmore'. cbn [set_news_collection crawled]. rewrite Hmore.
        exists ((further_url news_block :: more) ++ more').
        rewrite <- app_assoc. reflexivity.
      * destruct (IH w1) as (more' & Hmore'). rewrite Hmore', Hmore.
        exists ((further_url news_block :: more) ++ more').
        rewrite <- app_assoc. reflexivity.
      * eauto.
      * eauto.
Qed.

(** What makes the guard of [extract_detailPage] true. *)
Lemma complete_spec (existing_doc : option Document) :
  complete existing_doc = true <->
  exists d, existing_doc = Some d
    /\ (exists content, doc_content d = Some content /\ content <> "")
    /\ (exists keyword others, doc_keywords d = Some (keyword :: others)).
Proof.
  unfold complete, opt_str_truthy, str_truthy, list_truthy. split.
  - destruct existing_doc as [d|]; [|discriminate].
    destruct (doc_keywords d) as [[|k ks]|] eqn:Hk; try discriminate.
    destruct (doc_content d) as [content|] eqn:Hc; [|discriminate].
    cbn [andb]. intros Hne. exists d. split; [reflexivity|].
    split; [|exists k, ks; exact Hk].
    exists content. split; [exact Hc|].
    intros ->. discriminate Hne.
  - intros (d & -> & (content & Hc & Hne) & (k & ks & Hk)).
    rewrite Hk, Hc. cbn [andb].
    destruct (String.eqb content "") eqn:E; [|reflexivity].
    apply String.eqb_eq in E. contradiction.
Qed.

(** C2, amended.  For a stub with a non-empty [further_url], the
    backfill skips it (goes on to the next stub, nothing crawled,
    nothing written) exactly when the stored document exists and has a
    non-empty keywords list and a content that is neither null nor the
    empty string; otherwise the next crawl is the extraction of that
    url.  In particular a stored document without content, or without
    keywords, triggers the extraction. *)
Theorem backfill_skips_iff_complete
    (fuel : nat) (globals : list string) (news_block : TechFinancingNews)
    (rest : list TechFinancingNews) (w : Ingest) :
  further_url news_block <> "" ->
  let existing_doc := find_one (further_url news_block) (news_collection w) in
  let run := backfill strptime json_loads_detail (S fuel) globals
               (news_block :: rest) w in
  (complete existing_doc = true <->
     exists d, existing_doc = Some d
       /\ (exists content, doc_content d = Some content /\ content <> "")
       /\ (exists keyword others, doc_keywords d = Some (keyword :: others)))
  /\ (complete existing_doc = true ->
        run = backfill strptime json_loads_detail (S fuel) globals rest w)
  /\ (complete existing_doc = false ->
        exists more, crawled (snd run) = crawled w ++ further_url news_block :: more)
  /\ (forall d, existing_doc = Some d ->
        doc_content d = None \/ doc_keywords d = None \/ doc_keywords d = Some [] ->
        complete existing_doc = false).
Proof.
  intros Hurl existing_doc run.
  assert (Htruthy : str_truthy (further_url news_block) = true).
  { unfold str_truthy. destruct (String.eqb (further_url news_block) "") eqn:E;
      [apply String.eqb_eq in E; contradiction | reflexivity]. }
  split; [apply complete_spec|].
  split; [|split].
  - intros Hcomplete. subst run. cbn [backfill]. rewrite Htruthy. cbn [negb].
    fold existing_doc. rewrite Hcomplete. reflexivity.
  - intros Hcomplete. subst run. cbn [backfill]. rewrite Htruthy. cbn [negb].
    fold existing_doc. rewrite Hcomplete.
    destruct (retry_extract_log fuel globals (further_url news_block) w Htruthy)
      as ((more & Hmore) & _).
    destruct (retry_extract json_loads_detail (S fuel) globals
                (further_url news_block) w) as [[[[detail|]|e]|] w1];
      cbn [snd] in *; eauto.
    + match goal with
      | |- context [backfill _ _ _ _ rest ?w2] =>
          destruct (backfill_log (S fuel) globals rest w2) as (more' & Hmore')
      end.
      rewrite Hmore'. cbn [set_news_collection crawled]. rewrite Hmore.
      exists (more ++ more'). rewrite <- app_assoc. reflexivity.
    + destruct (backfill_log (S fuel) globals rest w1) as (more' & Hmore').
      rewrite Hmore', Hmore.
      exists (more ++ more'). rewrite <- app_assoc. reflexivity.
  - intros d Hd Hmissing. rewrite Hd. unfold complete.
    destruct Hmissing as [H|[H|H]]; rewrite H; cbn;
      try reflexivity.
    destruct (doc_keywords d) as [[|k ks]|]; reflexivity.
Qed.

End Backfill.

(** [extract_detail_content] turns every [Exception] of the crawl, a
    rate limit error among them, into the answer [None]. *)
Lemma extract_detail_content_catches
    (json_loads_detail : string -> option (list DetailRecord))
    (url : string) (e : exn) (w : Ingest) :
  str_truthy url = true ->
  crawler w (length (crawled w)) url = ArunRaises e ->
  is_Exception e = true ->
  extract_detail_content json_loads_detail url w = (Ret None, snd (arun url w)).
Proof.
  intros Hurl Hcrawl Hexn. unfold extract_detail_content, arun.
  rewrite Hurl, Hcrawl, Hexn. reflexivity.
Qed.

(** With the names the module binds, the [while True] loop of
    [extract_detailPage] has one iteration: the extractor's answer
    leaves it through [break], and an exception that reaches the
    [except] clause becomes [NameError], [litellm] being unbound. *)
Lemma retry_extract_once
    (json_loads_detail : string -> option (list DetailRecord))
    (fuel : nat) (url : string) (w : Ingest) :
  retry_extract json_loads_detail (S fuel) module_globals url w
  = match extract_detail_content json_loads_detail url w with
    | (Ret detail_page_result, w1) => (Some (Ret detail_page_result), w1)
    | (Raise _, w1) => (Some (Raise (NameError "litellm")), w1)
    end.
Proof.
  cbn [retry_extract].
  destruct (extract_detail_content json_loads_detail url w) as [[v|e] w1];
    reflexivity.
Qed.

(** An extraction that fails (answer [None]) leaves the store as it
    was and the loop goes on with the next stub. *)
Lemma backfill_failed_extraction
    (strptime : string -> option Z)
    (json_loads_detail : string -> option (list DetailRecord))
    (fuel : nat) (news_block : TechFinancingNews)
    (rest : list TechFinancingNews) (w w1 : Ingest) :
  str_truthy (further_url news_block) = true ->
  complete (find_one (further_url news_block) (news_collection w)) = false ->
  extract_detail_content json_loads_detail (further_url news_block) w
  = (Ret None, w1) ->
  extract_detailPage strptime json_loads_detail (S fuel) (news_block :: rest) w
  = extract_detailPage strptime json_loads_detail (S fuel) rest w1
  /\ news_collection w1 = news_collection w
  /\ naps w1 = naps w.
Proof.
  intros Hurl Hincomplete Hfail.
  destruct (extract_detail_content_log json_loads_detail _ w Hurl)
    as (_ & Hstore & Hnaps).
  rewrite Hfail in Hstore, Hnaps. cbn [snd] in Hstore, Hnaps.
  split; [|split; assumption].
  unfold extract_detailPage. cbn [backfill].
  rewrite Hurl, Hincomplete. cbn [negb].
  rewrite retry_extract_once, Hfail. reflexivity.
Qed.

(** C1, at a failing input.  The store is empty and the provider
    answers the first extraction of the stub's page with a rate limit
    error (it would answer the next one): [extract_detailPage] returns
    after that single crawl, without having slept and without having
    written the document; there is no second attempt. *)
Theorem rate_limit_error_is_not_retried (fuel : nat) :
  let run := extract_detailPage no_date one_detail (S fuel) [funding_round]
               rate_limited in
  fst run = Some (Ret tt)
  /\ naps (snd run) = []
  /\ crawled (snd run) = [further_url funding_round]
  /\ news_collection (snd run) = news_collection rate_limited
  /\ crawler rate_limited 1%nat (further_url funding_round)
     = ArunResult (Some "[{...}]").
Proof. repeat split. Qed.

(** An exception that does reach the [except] clause ends the whole
    backfill with [NameError]. *)
Example interrupt_meets_unbound_name (fuel : nat) :
  fst (extract_detailPage no_date one_detail (S fuel) [funding_round] interrupted)
  = Some (Raise (NameError "litellm")).
Proof. reflexivity. Qed.

(** Had the provider answered, the document's fields would have been
    written. *)
Example answered_extraction_is_stored (fuel : nat) :
  news_collection
    (snd (extract_detailPage no_date one_detail (S fuel) [funding_round]
            summary_missing))
  = [set_detail (Some "The round was led by two funds.")
       (Some ["ai"; " startups"; " funding"]) (clock summary_missing)
       empty_summary].
Proof. reflexivity. Qed.

(** C2, the claim as stated, fails: the stored document of the stub
    has a non-null content (the empty string) and a non-empty keywords
    list, and the backfill still crawls its page. *)
Lemma backfill_extracts_empty_content :
  find_one (further_url funding_round) (news_collection summary_missing)
  = Some empty_summary
  /\ has_content_and_keywords empty_summary
  /\ crawled (snd (extract_detailPage no_date one_detail 1 [funding_round]
                     summary_missing))
     = [further_url funding_round].
Proof.
  split; [reflexivity|]. split; [|reflexivity].
  split; [discriminate|]. exists "ai", [" startups"; " funding"]. reflexivity.
Qed.

Lemma backfill_skips_iff_complete_witness :
  further_url funding_round <> ""
  /\ exists more,
       crawled (snd (backfill no_date one_detail 1 module_globals
                       [funding_round] summary_missing))
       = crawled summary_missing ++ further_url funding_round :: more.
Proof.
  split; [discriminate|].
  destruct (backfill_skips_iff_complete no_date one_detail 0 module_globals
              funding_round [] summary_missing) as (_ & _ & H & _);
    [discriminate|].
  apply H. reflexivity.
Defined.

(** *** The store under [find_one] and [upsert_one] *)


Lemma find_one_None (u : string) (coll : list Document) :
  find_one u coll = None <-> ~ In u (map doc_url coll).
Proof.
  induction coll as [|x coll IH]; cbn [find_one map In]; [tauto|].
  destruct (String.eqb (doc_url x) u) eqn:E.
  - apply String.eqb_eq in E. split; [discriminate | intros H; exfalso; auto].
  - apply String.eqb_neq in E. rewrite IH. tauto.
Qed.


Lemma unique_urls_snoc (coll : list Document) (d : Document) :
  unique_urls coll -> find_one (doc_url d) coll = None ->
  unique_urls (coll ++ [d]).
Proof.
  unfold unique_urls. intros Hnd Hfresh. rewrite map_app. cbn [map].
  apply NoDup_app. split; [exact Hnd|]. split.
  - intros u Hu Hin. apply list_elem_of_singleton in Hin. subst u.
    apply find_one_None in Hfresh. apply Hfresh, list_elem_of_In, Hu.
  - apply NoDup_singleton.
Qed.

Section Listing.

Variable strptime : string -> option Z.
Variable json_loads_news : string -> option (list TechFinancingNews).





End Listing.

Section Sources.

Variable strptime : string -> option Z.
Variable json_loads_news : string -> option (list TechFinancingNews).







End Sources.



Example steady_source_first_run :
  let first := extract_news_list no_date one_stub
                 ["https://news.example/venture"; "https://news.example/ai"]
                 steady_source in
  fst first = Ret [funding_round; funding_round]
  /\ map doc_url (news_collection (snd first)) = [further_url funding_round].
Proof. split; reflexivity. Qed.

(** *** What the writes of the pipeline keep true *)

Lemma update_one_Forall (P : Document -> Prop) (url : string)
    (f : Document -> Document) (coll : list Document) :
  (forall d, P d -> P (f d)) -> Forall P coll -> Forall P (update_one url f coll).
Proof.
  intros Hf. induction 1 as [|d coll Hd Hcoll IH]; cbn [update_one];
    [constructor|].
  destruct (String.eqb (doc_url d) url); constructor; auto.
Qed.

Section Invariant.

Variable strptime : string -> option Z.
Variable json_loads_detail : string -> option (list DetailRecord).

Lemma formatted_document_invariant
    (news_data : TechFinancingNews) (detail_content : option (list DetailRecord))
    (w : Ingest) :
  keywords_with_content (_format_news_document strptime news_data detail_content w).
Proof.
  unfold keywords_with_content, _format_news_document.
  destruct detail_content as [[|first others]|]; cbn; congruence.
Qed.

Lemma store_news_keeps_invariant (news_data : list TechFinancingNews) :
  forall (all_processed_news : list TechFinancingNews) (w : Ingest),
    Forall keywords_with_content (news_collection w) ->
    Forall keywords_with_content
      (news_collection (snd (store_news strptime news_data all_processed_news w))).
Proof.
  induction news_data as [|news rest IH]; intros all_processed_news w Hinv;
    cbn [store_news]; [exact Hinv|].
  destruct (find_one (further_url news) (news_collection w)) eqn:Hfind;
    [apply IH, Hinv|].
  apply IH. cbn [set_news_collection news_collection].
  unfold upsert_one. cbn [_format_news_document doc_url]. rewrite Hfind.
  apply Forall_app. split; [exact Hinv|].
  constructor; [|constructor]. intros _. reflexivity.
Qed.

Lemma backfill_keeps_invariant (fuel : nat) (globals : list string)
    (news_data : list TechFinancingNews) :
  forall w : Ingest,
    Forall keywords_with_content (news_collection w) ->
    Forall keywords_with_content
      (news_collection
         (snd (backfill strptime json_loads_detail fuel globals news_data w))).
Proof.
  induction news_data as [|news_block rest IH]; intros w Hinv; cbn [backfill];
    [exact Hinv|].
  destruct (str_truthy (further_url news_block)) eqn:Hurl; cbn [negb];
    [|apply IH, Hinv].
  destruct (complete (find_one (further_url news_block) (news_collection w)));
    [apply IH, Hinv|].
  destruct fuel as [|fuel]; [exact Hinv|].
  destruct (retry_extract_log json_loads_detail fuel globals
              (further_url news_block) w Hurl) as (_ & Hstore).
  destruct (retry_extract json_loads_detail (S fuel) globals
              (further_url news_block) w) as [[[[detail|]|e]|] w1];
    cbn [snd] in *; try (rewrite Hstore; exact Hinv).
  - apply IH. cbn [set_news_collection news_collection]. rewrite Hstore.
    apply update_one_Forall; [|exact Hinv].
    intros d _.
    pose proof (formatted_document_invariant news_block
                  (Some detail) w1) as Hdoc.
    unfold keywords_with_content in *. cbn [set_detail doc_keywords doc_content].
    exact Hdoc.
  - apply IH. rewrite Hstore. exact Hinv.
Qed.

End Invariant.

(** *** The detail extractor and the backfill, in general *)

Section Contract.

Variable strptime : string -> option Z.
Variable json_loads_detail : string -> option (list DetailRecord).

(** X8.  [extract_detail_content] never lets an [Exception] out, never
    touches the store and never sleeps; it makes no crawl for the empty
    url and one crawl otherwise.  It answers [None] when the url is
    empty, when the crawl raises an [Exception], when the crawl returns
    nothing or a result without content; it returns the record list
    when the content parses to one. *)
Theorem extract_detail_content_contract (url : string) (w : Ingest) :
  let run := extract_detail_content json_loads_detail url w in
  let crawl := crawler w (length (crawled w)) url in
  news_collection (snd run) = news_collection w
  /\ naps (snd run) = naps w
  /\ (url = "" -> run = (Ret None, w))
  /\ (url <> "" -> crawled (snd run) = crawled w ++ [url])
  /\ (forall e, fst run = Raise e -> is_Exception e = false)
  /\ (url <> "" ->
      (forall e, crawl = ArunRaises e -> is_Exception e = true ->
         fst run = Ret None)
      /\ (crawl = ArunNone -> fst run = Ret None)
      /\ (crawl = ArunResult None -> fst run = Ret None)
      /\ (forall extracted_content detail_content,
            crawl = ArunResult (Some extracted_content) ->
            json_loads_detail extracted_content = Some detail_content ->
            fst run = Ret (Some detail_content))).
Proof.
  cbn zeta. unfold extract_detail_content, str_truthy.
  destruct (String.eqb url "") eqn:Hurl; cbn [negb].
  - apply String.eqb_eq in Hurl. subst url. cbn [fst snd].
    split; [reflexivity|]. split; [reflexivity|]. split; [reflexivity|].
    split; [intros H; contradiction H; reflexivity|].
    split; [intros e He; discriminate He|].
    intros H; contradiction H; reflexivity.
  - apply String.eqb_neq in Hurl. unfold arun.
    destruct (crawler w (length (crawled w)) url) as [e| |[extracted_content|]];
      [destruct (is_Exception e) eqn:Hexn| | destruct (json_loads_detail extracted_content) eqn:Hparse |];
      cbn [fst snd news_collection naps crawled];
      (split; [reflexivity|]); (split; [reflexivity|]);
      (split; [intros H; contradiction|]); (split; [reflexivity|]);
      (split; [intros e0 He0; try discriminate He0; try (injection He0 as <-; assumption)|]);
      intros _;
      (split; [intros e0 He0 Hx; try discriminate He0; try reflexivity;
               injection He0 as <-; congruence|]);
      (split; [intros H0; try discriminate H0; reflexivity|]);
      (split; [intros H0; try discriminate H0; reflexivity|]);
      intros c d Hc Hd; try discriminate Hc; injection Hc as <-; congruence.
Qed.

Lemma update_one_identity (url : string) (content : option string)
    (keywords : option (list string)) (now : Z) (coll : list Document) :
  map identity_of (update_one url (set_detail content keywords now) coll)
  = map identity_of coll.
Proof.
  induction coll as [|d coll IH]; [reflexivity|]. cbn [update_one].
  destruct (String.eqb (doc_url d) url); cbn [map]; [reflexivity|].
  rewrite IH. reflexivity.
Qed.

Lemma backfill_identity (fuel : nat) (globals : list string)
    (news_data : list TechFinancingNews) :
  forall w : Ingest,
    map identity_of
      (news_collection (snd (backfill strptime json_loads_detail fuel globals
                               news_data w)))
    = map identity_of (news_collection w).
Proof.
  induction news_data as [|news_block rest IH]; intros w; cbn [backfill];
    [reflexivity|].
  destruct (str_truthy (further_url news_block)) eqn:Hurl; cbn [negb];
    [|apply IH].
  destruct (complete (find_one (further_url news_block) (news_collection w)));
    [apply IH|].
  destruct fuel as [|fuel']; [reflexivity|].
  destruct (retry_extract_log json_loads_detail fuel' globals
              (further_url news_block) w Hurl) as (_ & Hstore).
  destruct (retry_extract json_loads_detail (S fuel') globals
              (further_url news_block) w) as [[[[detail|]|e]|] w1];
    cbn [snd] in *; try (rewrite Hstore; reflexivity).
  - rewrite IH. cbn [set_news_collection news_collection].
    rewrite update_one_identity, Hstore. reflexivity.
  - rewrite IH, Hstore. reflexivity.
Qed.

Lemma identity_urls (coll : list Document) :
  map doc_url coll
  = map (fun i => snd (fst (fst (fst (fst i))))) (map identity_of coll).
Proof. rewrite map_map. reflexivity. Qed.

(** X9.  The backfill writes to [content], [keywords] and
    [last_updated] only: it adds no document, removes none, and leaves
    the title, url, dates, tags and language of every stored document,
    and their order, as they were. *)
Theorem backfill_frame (fuel : nat) (globals : list string)
    (news_data : list TechFinancingNews) :
  forall w : Ingest,
    let after :=
      news_collection (snd (backfill strptime json_loads_detail fuel globals
                              news_data w)) in
    map identity_of after = map identity_of (news_collection w)
    /\ length after = length (news_collection w)
    /\ map doc_url after = map doc_url (news_collection w).
Proof.
  intros w after. subst after.
  pose proof (backfill_identity fuel globals news_data w) as Hmain.
  split; [exact Hmain|]. split.
  - rewrite <- (length_map identity_of), Hmain, length_map. reflexivity.
  - rewrite !identity_urls, Hmain. reflexivity.
Qed.

Lemma backfill_module_globals (fuel : nat) (news_data : list TechFinancingNews) :
  forall w : Ingest,
    backfill strptime json_loads_detail (S fuel) module_globals news_data w
    = backfill strptime json_loads_detail 1 module_globals news_data w.
Proof.
  induction news_data as [|news_block rest IH]; intros w; [reflexivity|].
  cbn [backfill].
  destruct (str_truthy (further_url news_block)); cbn [negb]; [|apply IH].
  destruct (complete (find_one (further_url news_block) (news_collection w)));
    [apply IH|].
  rewrite !retry_extract_once.
  destruct (extract_detail_content json_loads_detail (further_url news_block) w)
    as [[[detail|]|e] w1]; [apply IH | apply IH | reflexivity].
Qed.

(** X10.  As the module stands, [extract_detailPage] always comes to an
    end: one iteration of its [while True] loop per stub is enough, so
    any fuel gives the result that fuel 1 gives.  It never sleeps and
    crawls at most once per stub. *)
Theorem extract_detailPage_terminates (fuel : nat)
    (news_data : list TechFinancingNews) :
  forall w : Ingest,
    let run := extract_detailPage strptime json_loads_detail (S fuel) news_data w in
    run = extract_detailPage strptime json_loads_detail 1 news_data w
    /\ fst run <> None
    /\ naps (snd run) = naps w
    /\ (length (crawled (snd run)) <= length (crawled w) + length news_data)%nat.
Proof.
  intros w run. subst run. unfold extract_detailPage.
  split; [apply backfill_module_globals|].
  rewrite backfill_module_globals. revert w.
  induction news_data as [|news_block rest IH]; intros w; cbn [backfill].
  - cbn [fst snd length]. repeat split; try discriminate; lia.
  - assert (Hnext : forall w1 : Ingest,
               naps w1 = naps w ->
               (length (crawled w1) <= S (length (crawled w)))%nat ->
               let run := backfill strptime json_loads_detail 1 module_globals rest w1 in
               fst run <> None
               /\ naps (snd run) = naps w
               /\ (length (crawled (snd run))
                   <= length (crawled w) + length (news_block :: rest))%nat).
    { intros w1 Hn Hc. destruct (IH w1) as (H1 & H2 & H3). cbn zeta.
      cbn [length]. repeat split; auto; try congruence; lia. }
    destruct (str_truthy (further_url news_block)) eqn:Hurl; cbn [negb];
      [|apply Hnext; [reflexivity | lia]].
    destruct (complete (find_one (further_url news_block) (news_collection w)));
      [apply Hnext; [reflexivity | lia]|].
    rewrite retry_extract_once.
    destruct (extract_detail_content_log json_loads_detail _ w Hurl)
      as (Hc & _ & Hn).
    destruct (extract_detail_content json_loads_detail (further_url news_block) w)
      as [[[detail|]|e] w1]; cbn [snd] in Hc, Hn.
    + apply Hnext; cbn [set_news_collection naps crawled];
        [exact Hn | rewrite Hc, length_app; cbn; lia].
    + apply Hnext; [exact Hn | rewrite Hc, length_app; cbn; lia].
    + cbn [fst snd length]. repeat split; try discriminate; try congruence.
      rewrite Hc, length_app. cbn. lia.
Qed.

End Contract.

(** *** Lookups after writes *)

Lemma find_one_update_one (url : string) (f : Document -> Document)
    (coll : list Document) (d : Document) :
  doc_url (f d) = doc_url d ->
  find_one url coll = Some d ->
  find_one url (update_one url f coll) = Some (f d).
Proof.
  intros Hf. induction coll as [|x coll IH]; cbn [find_one update_one];
    [discriminate|].
  destruct (String.eqb (doc_url x) url) eqn:Hx.
  - intros [= ->]. cbn [find_one]. rewrite Hf, Hx. reflexivity.
  - intros Hfind. cbn [find_one]. rewrite Hx. apply IH, Hfind.
Qed.

Lemma find_one_update_other (url other : string) (f : Document -> Document)
    (coll : list Document) :
  (forall d, doc_url d = url -> doc_url (f d) = url) ->
  other <> url ->
  find_one other (update_one url f coll) = find_one other coll.
Proof.
  intros Hf Hother. induction coll as [|x coll IH]; [reflexivity|].
  cbn [update_one find_one].
  destruct (String.eqb (doc_url x) url) eqn:Hx; cbn [find_one].
  - apply String.eqb_eq in Hx. rewrite (Hf x Hx), Hx.
    apply not_eq_sym, String.eqb_neq in Hother. rewrite Hother. reflexivity.
  - rewrite IH. reflexivity.
Qed.

Lemma update_one_urls (url : string) (f : Document -> Document)
    (coll : list Document) :
  (forall d, doc_url d = url -> doc_url (f d) = url) ->
  map doc_url (update_one url f coll) = map doc_url coll.
Proof.
  intros Hf. induction coll as [|x coll IH]; [reflexivity|].
  cbn [update_one]. destruct (String.eqb (doc_url x) url) eqn:Hx; cbn [map].
  - apply String.eqb_eq in Hx. rewrite (Hf x Hx), Hx. reflexivity.
  - rewrite IH. reflexivity.
Qed.

Lemma find_one_snoc_fresh (url : string) (coll : list Document) (d : Document) :
  find_one url coll = None -> doc_url d = url ->
  find_one url (coll ++ [d]) = Some d.
Proof.
  intros Hnone Hurl. induction coll as [|x coll IH]; cbn [app find_one] in *.
  - rewrite Hurl, String.eqb_refl. reflexivity.
  - destruct (String.eqb (doc_url x) url); [discriminate | apply IH, Hnone].
Qed.

Lemma find_one_snoc_other (url : string) (coll : list Document) (d : Document) :
  doc_url d <> url -> find_one url (coll ++ [d]) = find_one url coll.
Proof.
  intros Hurl. induction coll as [|x coll IH]; cbn [app find_one].
  - apply String.eqb_neq in Hurl. rewrite Hurl. reflexivity.
  - destruct (String.eqb (doc_url x) url); [reflexivity | exact IH].
Qed.

(** X11.  [upsert_one] on a url, with an update that keeps that url and
    a fresh document carrying it: a lookup of the url afterwards finds
    the updated document if there was one and the fresh one otherwise;
    lookups of other urls are unchanged; the urls stay unique. *)
Theorem upsert_one_lookup (url : string) (f : Document -> Document)
    (fresh : Document) (coll : list Document) :
  (forall d, doc_url d = url -> doc_url (f d) = url) ->
  doc_url fresh = url ->
  find_one url (upsert_one url f fresh coll)
  = Some (match find_one url coll with
          | Some d => f d
          | None => fresh
          end)
  /\ (forall other, other <> url ->
        find_one other (upsert_one url f fresh coll) = find_one other coll)
  /\ (unique_urls coll -> unique_urls (upsert_one url f fresh coll)).
Proof.
  intros Hf Hfresh. unfold upsert_one.
  destruct (find_one url coll) as [d|] eqn:Hfind.
  - assert (Hd : doc_url d = url).
    { clear -Hfind. induction coll as [|x coll IH]; cbn [find_one] in Hfind;
        [discriminate|].
      destruct (String.eqb (doc_url x) url) eqn:Hx; [|apply IH, Hfind].
      injection Hfind as <-. apply String.eqb_eq, Hx. }
    split; [apply find_one_update_one; [rewrite Hd; apply Hf, Hd | exact Hfind]|].
    split; [intros other Hother; apply find_one_update_other; assumption|].
    unfold unique_urls. rewrite update_one_urls by exact Hf. auto.
  - split; [apply find_one_snoc_fresh; assumption|].
    split.
    + intros other Hother. apply find_one_snoc_other. congruence.
    + intros Hnd. apply unique_urls_snoc; [exact Hnd|]. rewrite Hfresh. exact Hfind.
Qed.

Lemma upsert_one_lookup_witness :
  find_one "https://news.example/series-a"
    (upsert_one "https://news.example/series-a" (set_document empty_summary)
       empty_summary [])
  = Some empty_summary.
Proof.
  destruct (upsert_one_lookup "https://news.example/series-a"
              (set_document empty_summary) empty_summary []
              (fun _ _ => eq_refl) eq_refl) as (H & _).
  exact H.
Defined.

Section Completion.

Variable strptime : string -> option Z.
Variable json_loads_detail : string -> option (list DetailRecord).

(** X12.  When the stub's document is stored but not complete, and the
    crawl of its page gives content whose first record has a non-empty
    summary and at least one keyword, [extract_detailPage] writes the
    summary, the keywords and the time of the update into that
    document, which is then complete: a second backfill of the stub
    does nothing at all. *)
Theorem backfill_completes_document
    (fuel : nat) (news_block : TechFinancingNews) (w : Ingest) (d : Document)
    (extracted_content : string) (first : DetailRecord) (others : list DetailRecord)
    (content keyword : string) (keywords : list string) :
  further_url news_block <> "" ->
  find_one (further_url news_block) (news_collection w) = Some d ->
  complete (Some d) = false ->
  crawler w (length (crawled w)) (further_url news_block)
  = ArunResult (Some extracted_content) ->
  json_loads_detail extracted_content = Some (first :: others) ->
  detail_summary first = Some content ->
  content <> "" ->
  normalize_key_words (default (KwStr "") (detail_key_words first))
  = keyword :: keywords ->
  let run := extract_detailPage strptime json_loads_detail (S fuel) [news_block] w in
  let stored := set_detail (Some content) (Some (keyword :: keywords)) (clock w) d in
  fst run = Some (Ret tt)
  /\ find_one (further_url news_block) (news_collection (snd run)) = Some stored
  /\ complete (find_one (further_url news_block) (news_collection (snd run))) = true
  /\ extract_detailPage strptime json_loads_detail (S fuel) [news_block] (snd run)
     = (Some (Ret tt), snd run).
Proof.
  intros Hurl Hfind Hincomplete Hcrawl Hparse Hsummary Hcontent Hkeywords run stored.
  assert (Htruthy : str_truthy (further_url news_block) = true).
  { unfold str_truthy. destruct (String.eqb (further_url news_block) "") eqn:E;
      [apply String.eqb_eq in E; contradiction | reflexivity]. }
  assert (Hrun : run
                 = (Some (Ret tt),
                    set_news_collection
                      (update_one (further_url news_block)
                         (set_detail (Some content) (Some (keyword :: keywords)) (clock w))
                         (news_collection w))
                      (snd (arun (further_url news_block) w)))).
  { subst run. unfold extract_detailPage. cbn [backfill].
    rewrite Htruthy, Hfind, Hincomplete. cbn [negb].
    rewrite retry_extract_once.
    unfold extract_detail_content. rewrite Htruthy. cbn [negb].
    unfold arun at 1. rewrite Hcrawl, Hparse.
    unfold _format_news_document. cbn [doc_content doc_keywords].
    rewrite Hsummary, Hkeywords. reflexivity. }
  rewrite Hrun. cbn [fst snd set_news_collection news_collection].
  assert (Hstored : find_one (further_url news_block)
                      (update_one (further_url news_block)
                         (set_detail (Some content) (Some (keyword :: keywords)) (clock w))
                         (news_collection w)) = Some stored).
  { apply find_one_update_one; [reflexivity | exact Hfind]. }
  assert (Hcomplete : complete (Some stored) = true).
  { apply complete_spec. exists stored. split; [reflexivity|]. split.
    - exists content. split; [reflexivity | exact Hcontent].
    - exists keyword, keywords. reflexivity. }
  split; [reflexivity|]. split; [exact Hstored|].
  split; [rewrite Hstored; exact Hcomplete|].
  unfold extract_detailPage. cbn [backfill].
  rewrite Htruthy. cbn [negb set_news_collection news_collection].
  rewrite Hstored, Hcomplete. reflexivity.
Qed.

End Completion.

Lemma backfill_completes_document_witness :
  let run := extract_detailPage no_date one_detail 1 [funding_round] summary_missing in
  complete (find_one (further_url funding_round) (news_collection (snd run))) = true
  /\ extract_detailPage no_date one_detail 1 [funding_round] (snd run)
     = (Some (Ret tt), snd run).
Proof.
  destruct (backfill_completes_document no_date one_detail 0 funding_round
              summary_missing empty_summary "[{...}]" funding_detail []
              "The round was led by two funds." "ai" [" startups"; " funding"])
    as (_ & _ & Hcomplete & Hagain);
    try reflexivity; try discriminate.
  split; [exact Hcomplete | exact Hagain].
Defined.

(** *** The settings of the detail extractor *)

(** X16.  [DetailPageContentExtractor]: the constructor succeeds
    exactly on three non-empty arguments and then holds them; [reset]
    without arguments changes nothing and of two resets the later wins
    field by field; but [reset] does not repeat the constructor's
    check: given an empty string it installs it.  The list extractor,
    built without a [detail_instruction] (its default), cannot be
    constructed. *)
Theorem settings_init_and_reset
    (given_api_key given_provider given_instruction : option string)
    (a1 p1 i1 a2 p2 i2 : option string) (self : Settings) :
  (init given_api_key given_provider given_instruction = Ret self <->
     given_api_key = Some (api_key self) /\ api_key self <> ""
     /\ given_provider = Some (provider self) /\ provider self <> ""
     /\ given_instruction = Some (instruction self) /\ instruction self <> "")
  /\ reset None None None self = self
  /\ reset a2 p2 i2 (reset a1 p1 i1 self)
     = reset (match a2 with Some _ => a2 | None => a1 end)
             (match p2 with Some _ => p2 | None => p1 end)
             (match i2 with Some _ => i2 | None => i1 end) self
  /\ init (Some (api_key (reset (Some "") None None self)))
          (Some (provider self)) (Some (instruction self))
     = Raise (ValueError "API key, provider, and instruction must be non-empty")
  /\ new_extractor given_api_key default_provider None
     = Raise (ValueError "API key, provider, and instruction must be non-empty").
Proof.
  split; [|split; [|split; [|split]]].
  - unfold init, opt_str_truthy, str_truthy. split.
    + destruct given_api_key as [a|], given_provider as [p|],
        given_instruction as [i|]; cbn; try discriminate;
        destruct (String.eqb a "") eqn:Ha; cbn; try discriminate;
        destruct (String.eqb p "") eqn:Hp; cbn; try discriminate;
        destruct (String.eqb i "") eqn:Hi; cbn; try discriminate.
      intros [= <-]. cbn.
      apply String.eqb_neq in Ha, Hp, Hi. auto 10.
    + intros (-> & Ha & -> & Hp & -> & Hi).
      apply String.eqb_neq in Ha, Hp, Hi. cbn. rewrite Ha, Hp, Hi. cbn.
      destruct self; reflexivity.
  - destruct self; reflexivity.
  - destruct a2, p2, i2; reflexivity.
  - reflexivity.
  - unfold new_extractor, init. cbn. rewrite !andb_false_r. reflexivity.
Qed.

(** *** The pipeline and the digest filter *)

Section PipelineInvariant.

Variable strptime : string -> option Z.
Variable json_loads_news : string -> option (list TechFinancingNews).
Variable json_loads_detail : string -> option (list DetailRecord).

Lemma extract_sources_keeps_invariant (urls : list string) :
  forall (all_processed_news : list TechFinancingNews) (w : Ingest),
    Forall keywords_with_content (news_collection w) ->
    Forall keywords_with_content
      (news_collection
         (snd (extract_sources strptime json_loads_news urls all_processed_news w))).
Proof.
  induction urls as [|url rest IH]; intros all_processed_news w Hinv;
    [exact Hinv|].
  cbn [extract_sources arun].
  set (w1 := {| news_collection := news_collection w; clock := clock w;
                crawler := crawler w; crawled := crawled w ++ [url];
                naps := naps w |}).
  assert (Hskip : forall all,
             Forall keywords_with_content
               (news_collection
                  (snd (extract_sources strptime json_loads_news rest all w1)))).
  { intros all. apply IH. exact Hinv. }
  destruct (crawler w (length (crawled w)) url) as [e| |[extracted_content|]];
    try apply Hskip.
  - destruct (is_Exception e); [apply Hskip | exact Hinv].
  - destruct (str_truthy extracted_content); cbn [negb]; [|apply Hskip].
    destruct (json_loads_news extracted_content) as [news_data|]; [|apply Hskip].
    pose proof (store_news_keeps_invariant strptime news_data all_processed_news
                  w1 Hinv) as Hstore.
    destruct (store_news strptime news_data all_processed_news w1) as [all1 w2].
    apply IH. exact Hstore.
Qed.

(** X22.  On a store where [keywords] is null only when [content] is,
    the pipeline leaves a store with the same property; on such a store
    the filter of the digest query selects exactly the documents with
    non-null content and a non-empty keywords list. *)
Theorem run_pipeline_keeps_digest_filter_exact
    (fuel : nat) (urls : list string) (w : Ingest) :
  Forall keywords_with_content (news_collection w) ->
  let final :=
    news_collection
      (snd (run_pipeline strptime json_loads_news json_loads_detail fuel urls w)) in
  Forall keywords_with_content final
  /\ (forall d, In d final ->
        (EmailService.digest_filter d = true <-> has_content_and_keywords d)).
Proof.
  intros Hinv final.
  assert (Hfinal : Forall keywords_with_content final).
  { subst final. unfold run_pipeline, extract_news_list.
    pose proof (extract_sources_keeps_invariant urls [] w Hinv) as Hlisted.
    destruct (extract_sources strptime json_loads_news urls [] w)
      as [[news_data|e] w1]; cbn [snd] in *; [|exact Hlisted].
    apply backfill_keeps_invariant, Hlisted. }
  split; [exact Hfinal|].
  intros d Hd. apply EmailServiceFacts.digest_filter_complete.
  rewrite Forall_forall in Hfinal. apply Hfinal, list_elem_of_In, Hd.
Qed.

End PipelineInvariant.

Lemma run_pipeline_keeps_digest_filter_exact_witness :
  Forall keywords_with_content
    (news_collection
       (snd (run_pipeline no_date one_stub one_detail 1
               ["https://news.example/venture"] steady_source))).
Proof.
  destruct (run_pipeline_keeps_digest_filter_exact no_date one_stub one_detail 1
              ["https://news.example/venture"] steady_source ltac:(constructor))
    as (H & _).
  exact H.
Defined.

Example steady_source_pipeline :
  map (fun d => (doc_url d, doc_content d, doc_keywords d))
    (news_collection
       (snd (run_pipeline no_date one_stub one_detail 1
               ["https://news.example/venture"] steady_source)))
  = [("https://news.example/series-a",
      Some "The round was led by two funds.",
      Some ["ai"; " startups"; " funding"])].
Proof. reflexivity. Qed.

End IngestFacts.

(** ** scheduler.py *)

Module SchedulerFacts.

Import Scheduler SchedulerSamples.

Section Registered.

Variable at_accepts : string -> bool.

Lemma register_spec (times : list string) (script : config_value) :
  forall registered : list Job,
    snd (register at_accepts times script registered)
    = registered ++ daily script (accepted at_accepts times)
    /\ (fst (register at_accepts times script registered) = Ret tt
        <-> accepted at_accepts times = times).
Proof.
  induction times as [|time_str rest IH]; intros registered.
  - cbn. rewrite app_nil_r. tauto.
  - cbn [register accepted]. destruct (at_accepts time_str).
    + destruct (IH (registered ++ [mkJob time_str script])) as (Hjobs & Hret).
      rewrite Hjobs, <- app_assoc. split; [reflexivity|].
      rewrite Hret. split; [congruence | intros H; injection H; auto].
    + cbn. rewrite app_nil_r. split; [reflexivity|].
      split; discriminate.
Qed.

(** [setup_schedule] drops the jobs there were and registers the
    crawler jobs, then, unless a crawler time was refused, the mail
    jobs; the configuration and its file are not touched. *)
Lemma setup_schedule_spec (s : TaskScheduler) :
  let crawler_times := py_iter (default (CfgList []) (config s !! "crawler_times")) in
  let email_times := py_iter (default (CfgList []) (config s !! "email_times")) in
  let crawler_script :=
    default (CfgStr "ListPageExtractor.py") (config s !! "crawler_script") in
  let email_script :=
    default (CfgStr "EmailService.py") (config s !! "email_script") in
  let run := setup_schedule at_accepts s in
  config (snd run) = config s
  /\ config_file (snd run) = config_file s
  /\ (accepted at_accepts crawler_times = crawler_times ->
      jobs (snd run)
      = daily crawler_script crawler_times
        ++ daily email_script (accepted at_accepts email_times)).
Proof.
  cbn zeta. unfold setup_schedule.
  destruct (register_spec
              (py_iter (default (CfgList []) (config s !! "crawler_times")))
              (default (CfgStr "ListPageExtractor.py") (config s !! "crawler_script"))
              []) as (Hjobs & Hret).
  destruct (register at_accepts
              (py_iter (default (CfgList []) (config s !! "crawler_times")))
              (default (CfgStr "ListPageExtractor.py") (config s !! "crawler_script"))
              []) as [[[]|e] registered] eqn:Hrun; cbn [fst snd] in *.
  - destruct (register_spec
                (py_iter (default (CfgList []) (config s !! "email_times")))
                (default (CfgStr "EmailService.py") (config s !! "email_script"))
                registered) as (Hjobs' & _).
    destruct (register at_accepts
                (py_iter (default (CfgList []) (config s !! "email_times")))
                (default (CfgStr "EmailService.py") (config s !! "email_script"))
                registered) as [r registered'].
    cbn [fst snd config config_file jobs] in *.
    repeat split. intros Hall. rewrite Hjobs', Hjobs, Hall. reflexivity.
  - cbn [config config_file jobs]. repeat split.
    intros Hall. apply Hret in Hall. discriminate Hall.
Qed.

(** C9.  Whatever the configuration was, after
    [set_times('crawler', ["09:00", "11:00"])] and a reload of the
    configuration file, the crawler times of the configuration are
    exactly these two, every other entry (the mail times and the two
    script paths among them) is what it was, and the jobs registered,
    by [set_times] itself and by [setup_schedule] after the reload, are
    the crawler script at 09:00 and at 11:00 followed by mail jobs at
    the former mail times. *)
Theorem set_crawler_times_then_reload (s : TaskScheduler) :
  at_accepts "09:00" = true ->
  at_accepts "11:00" = true ->
  let times := ["09:00"; "11:00"] in
  let updated := snd (set_times at_accepts "crawler" times s) in
  let reloaded := load_config updated in
  let crawler_script :=
    default (CfgStr "ListPageExtractor.py") (config s !! "crawler_script") in
  let email_script :=
    default (CfgStr "EmailService.py") (config s !! "email_script") in
  let email_times := py_iter (default (CfgList []) (config s !! "email_times")) in
  let expected_jobs :=
    [mkJob "09:00" crawler_script; mkJob "11:00" crawler_script]
    ++ daily email_script (accepted at_accepts email_times) in
  config reloaded !! "crawler_times" = Some (CfgList times)
  /\ (forall key, key <> "crawler_times" -> config reloaded !! key = config s !! key)
  /\ config reloaded !! "email_times" = config s !! "email_times"
  /\ config reloaded !! "crawler_script" = config s !! "crawler_script"
  /\ config reloaded !! "email_script" = config s !! "email_script"
  /\ config_file reloaded = Some (config reloaded)
  /\ jobs updated = expected_jobs
  /\ jobs (snd (setup_schedule at_accepts reloaded)) = expected_jobs.
Proof.
  intros H09 H11 times updated reloaded crawler_script email_script email_times
    expected_jobs.
  set (saved := save_config
         {| config := <["crawler_times" := CfgList times]> (config s);
            config_file := config_file s; jobs := jobs s |}).
  assert (Hupdated : updated = snd (setup_schedule at_accepts saved)) by reflexivity.
  destruct (setup_schedule_spec saved) as (Hcfg & Hfile & Hjobs).
  rewrite <- Hupdated in Hcfg, Hfile, Hjobs.
  assert (Hreloaded : reloaded = updated).
  { unfold reloaded, load_config. rewrite Hfile. cbn [save_config saved config_file config].
    destruct updated as [c f j]. cbn [config config_file jobs] in *.
    rewrite Hcfg, Hfile. reflexivity. }
  assert (Hconfig : config reloaded = <["crawler_times" := CfgList times]> (config s)).
  { rewrite Hreloaded, Hcfg. reflexivity. }
  assert (Hother : forall key, key <> "crawler_times" ->
                     config reloaded !! key = config s !! key).
  { intros key Hkey. rewrite Hconfig. apply lookup_insert_ne. congruence. }
  assert (Hexpected : jobs updated = expected_jobs).
  { cbn [saved save_config config] in Hjobs.
    rewrite lookup_insert_eq in Hjobs.
    rewrite !lookup_insert_ne in Hjobs by discriminate.
    unfold times in Hjobs.
    cbn [default from_option id py_iter accepted] in Hjobs.
    rewrite H09, H11 in Hjobs.
    apply Hjobs. reflexivity. }
  split; [rewrite Hconfig; apply lookup_insert_eq|].
  split; [exact Hother|].
  split; [apply Hother; discriminate|].
  split; [apply Hother; discriminate|].
  split; [apply Hother; discriminate|].
  split; [rewrite Hreloaded, Hfile, Hcfg; reflexivity|].
  split; [exact Hexpected|].
  destruct (setup_schedule_spec reloaded) as (_ & _ & Hjobs').
  rewrite Hjobs'.
  - rewrite Hconfig, lookup_insert_eq.
    rewrite !lookup_insert_ne by discriminate. reflexivity.
  - rewrite Hconfig, lookup_insert_eq. unfold times.
    cbn [default from_option id py_iter accepted]. rewrite H09, H11. reflexivity.
Qed.

End Registered.

Lemma set_crawler_times_then_reload_witness :
  let updated := snd (set_times hh_mm "crawler" ["09:00"; "11:00"] fresh_scheduler) in
  let reloaded := load_config updated in
  config reloaded !! "crawler_times" = Some (CfgList ["09:00"; "11:00"])
  /\ config reloaded !! "email_times" = Some (CfgList ["16:25"])
  /\ jobs updated
     = [mkJob "09:00" (CfgStr "ListPageExtractor.py");
        mkJob "11:00" (CfgStr "ListPageExtractor.py");
        mkJob "16:25" (CfgStr "EmailService.py")].
Proof.
  destruct (set_crawler_times_then_reload hh_mm fresh_scheduler eq_refl eq_refl)
    as (Hcrawler & _ & Hemail & _ & _ & _ & Hjobs & _).
  split; [exact Hcrawler|]. split; [|exact Hjobs].
  rewrite Hemail. reflexivity.
Defined.

(** *** Rebuilding the schedule *)

Section Rebuild.

Variable at_accepts : string -> bool.

Lemma accepted_all (times : list string) :
  Forall (fun time_str => at_accepts time_str = true) (accepted at_accepts times).
Proof.
  induction times as [|time_str rest IH]; cbn [accepted]; [constructor|].
  destruct (at_accepts time_str) eqn:H; constructor; assumption.
Qed.

Lemma register_jobs (times : list string) (script : config_value)
    (registered : list Job) :
  Forall (fun job => at_accepts (job_at job) = true) registered ->
  Forall (fun job => at_accepts (job_at job) = true)
    (snd (register at_accepts times script registered)).
Proof.
  intros Hreg. destruct (register_spec at_accepts times script registered) as (-> & _).
  apply Forall_app. split; [exact Hreg|].
  unfold daily. apply Forall_map.
  eapply Forall_impl; [apply accepted_all|]. intros t Ht. exact Ht.
Qed.

(** X18.  [setup_schedule] rebuilds the job list from the configuration
    alone: the jobs registered before do not matter, running it twice
    gives what running it once gives, every job it registers is at a
    time [at] accepts, and it returns without raising exactly when
    every crawler time and every mail time is accepted. *)
Theorem setup_schedule_rebuilds (s : TaskScheduler) (stale : list Job) :
  let crawler_times := py_iter (default (CfgList []) (config s !! "crawler_times")) in
  let email_times := py_iter (default (CfgList []) (config s !! "email_times")) in
  let run := setup_schedule at_accepts s in
  setup_schedule at_accepts
    {| config := config s; config_file := config_file s; jobs := stale |}
  = run
  /\ setup_schedule at_accepts (snd run) = run
  /\ Forall (fun job => at_accepts (job_at job) = true) (jobs (snd run))
  /\ (fst run = Ret tt <->
        accepted at_accepts crawler_times = crawler_times
        /\ accepted at_accepts email_times = email_times).
Proof.
  cbn zeta. split; [reflexivity|].
  unfold setup_schedule.
  destruct (register_spec at_accepts
              (py_iter (default (CfgList []) (config s !! "crawler_times")))
              (default (CfgStr "ListPageExtractor.py") (config s !! "crawler_script"))
              []) as (_ & Hret).
  pose proof (register_jobs
                (py_iter (default (CfgList []) (config s !! "crawler_times")))
                (default (CfgStr "ListPageExtractor.py") (config s !! "crawler_script"))
                [] ltac:(constructor)) as Hjobs.
  destruct (register at_accepts
              (py_iter (default (CfgList []) (config s !! "crawler_times")))
              (default (CfgStr "ListPageExtractor.py") (config s !! "crawler_script"))
              []) as [[[]|e] registered] eqn:Hrun; cbn [fst snd] in *.
  - destruct (register_spec at_accepts
                (py_iter (default (CfgList []) (config s !! "email_times")))
                (default (CfgStr "EmailService.py") (config s !! "email_script"))
                registered) as (_ & Hret').
    pose proof (register_jobs
                  (py_iter (default (CfgList []) (config s !! "email_times")))
                  (default (CfgStr "EmailService.py") (config s !! "email_script"))
                  registered Hjobs) as Hjobs'.
    destruct (register at_accepts
                (py_iter (default (CfgList []) (config s !! "email_times")))
                (default (CfgStr "EmailService.py") (config s !! "email_script"))
                registered) as [r registered'] eqn:Hrun'.
    cbn [fst snd config config_file jobs] in *.
    rewrite Hrun, Hrun'.
    split; [reflexivity|]. split; [exact Hjobs'|].
    rewrite Hret'. split; [intros H; split; [apply Hret; reflexivity | exact H]|].
    intros [_ H]; exact H.
  - cbn [config config_file jobs]. rewrite Hrun.
    split; [reflexivity|]. split; [exact Hjobs|].
    split; [discriminate|]. intros [H _]. apply Hret in H. discriminate H.
Qed.

(** X19.  [set_times] writes the file it has just changed: afterwards
    the file holds the configuration in memory.  The kind [crawler]
    replaces the crawler times, the kind [email] the mail times, any
    other kind changes no entry (and still saves and re-registers); the
    entries other than the two time tables are never touched. *)
Theorem set_times_frame (task_type : string) (times : list string)
    (s : TaskScheduler) :
  let after := snd (set_times at_accepts task_type times s) in
  config_file after = Some (config after)
  /\ (task_type = "crawler" ->
        config after = <["crawler_times" := CfgList times]> (config s))
  /\ (task_type = "email" ->
        config after = <["email_times" := CfgList times]> (config s))
  /\ (task_type <> "crawler" -> task_type <> "email" -> config after = config s)
  /\ (forall key, key <> "crawler_times" -> key <> "email_times" ->
        config after !! key = config s !! key).
Proof.
  cbn zeta. unfold set_times.
  set (updated := if String.eqb task_type "crawler"
                  then <["crawler_times" := CfgList times]> (config s)
                  else if String.eqb task_type "email"
                       then <["email_times" := CfgList times]> (config s)
                       else config s).
  destruct (setup_schedule_spec at_accepts
              (save_config {| config := updated; config_file := config_file s;
                              jobs := jobs s |})) as (Hcfg & Hfile & _).
  rewrite Hcfg, Hfile. cbn [save_config config config_file].
  split; [reflexivity|].
  split; [intros ->; reflexivity|].
  split; [intros ->; reflexivity|].
  split.
  - intros Hc He. subst updated.
    apply String.eqb_neq in Hc, He. rewrite Hc, He. reflexivity.
  - intros key Hc He. subst updated.
    destruct (String.eqb task_type "crawler");
      [apply lookup_insert_ne; congruence|].
    destruct (String.eqb task_type "email");
      [apply lookup_insert_ne; congruence | reflexivity].
Qed.

(** X20.  [set_times] saves before it schedules: a first crawler time
    that [at] refuses raises [ScheduleValueError] and leaves no job
    registered, but the refused table is already in the configuration
    file, so that the next process to load it fails in
    [setup_schedule] in the same way. *)
Theorem set_times_saves_refused_time (time_str : string) (rest : list string)
    (s : TaskScheduler) :
  at_accepts time_str = false ->
  let run := set_times at_accepts "crawler" (time_str :: rest) s in
  let restarted := setup_schedule at_accepts (new_scheduler (config_file (snd run))) in
  fst run = Raise (ScheduleValueError time_str)
  /\ jobs (snd run) = []
  /\ (exists on_disk,
        config_file (snd run) = Some on_disk
        /\ on_disk !! "crawler_times" = Some (CfgList (time_str :: rest)))
  /\ fst restarted = Raise (ScheduleValueError time_str)
  /\ jobs (snd restarted) = [].
Proof.
  intros Hrefused run restarted.
  assert (Hrun : run
                 = (Raise (ScheduleValueError time_str),
                    {| config := <["crawler_times" := CfgList (time_str :: rest)]> (config s);
                       config_file :=
                         Some (<["crawler_times" := CfgList (time_str :: rest)]> (config s));
                       jobs := [] |})).
  { subst run. unfold set_times, setup_schedule.
    cbn [String.eqb Ascii.eqb Bool.eqb save_config config config_file jobs].
    rewrite lookup_insert_eq. cbn [default from_option id py_iter register].
    rewrite Hrefused. reflexivity. }
  subst restarted. rewrite Hrun. cbn [fst snd config_file jobs].
  split; [reflexivity|]. split; [reflexivity|].
  split; [eexists; split; [reflexivity | apply lookup_insert_eq]|].
  unfold new_scheduler, load_config, setup_schedule.
  cbn [config config_file jobs].
  rewrite lookup_insert_eq. cbn [default from_option id py_iter register].
  rewrite Hrefused. split; reflexivity.
Qed.

End Rebuild.

Lemma set_times_saves_refused_time_witness :
  let run := set_times hh_mm "crawler" ["25:00"; "09:00"] fresh_scheduler in
  fst run = Raise (ScheduleValueError "25:00")
  /\ jobs (snd run) = []
  /\ fst (setup_schedule hh_mm (new_scheduler (config_file (snd run))))
     = Raise (ScheduleValueError "25:00").
Proof.
  destruct (set_times_saves_refused_time hh_mm "25:00" ["09:00"] fresh_scheduler
              eq_refl) as (Hraise & Hjobs & _ & Hagain & _).
  split; [exact Hraise|]. split; [exact Hjobs | exact Hagain].
Defined.

End SchedulerFacts.
